(** * Electrical fault diagnosis: the rule engine, the power utilities and
      the input stage of the [/api/diagnose] handler

    Shallow embedding of [static/Electrical.py] (class [FaultDiagnosis]) and
    of the [diagnose] view of [app.py], followed by the label tables and the
    account routes of [app.py] ([register], [login], [activate_account],
    [forgot_password], [reset_password]).

    Numbers.  The readings are Python floats, that is binary64 values.
    - The five quantities the rule engine only compares with a threshold
      (voltage, current, frequency, power factor, temperature) are embedded
      as the rationals [Q] they denote: comparing a finite double with a
      threshold is comparing two rationals.  The thresholds 200, 250, 30,
      48, 52, 80 and the products 375, 100 and 45 are doubles; [0.85] and
      [0.7] are read as the decimal fractions they spell, in a reading as in
      the threshold.  Infinities and NaN in these five fields are outside
      the model.
    - The three phase voltages go through arithmetic (two sums, four
      divisions, three products), and so do the arguments of the power
      utilities: they are binary64 values, the primitive type [float], with
      the operations of IEEE 754 (round to nearest, ties to even;
      infinities; NaN).  What Python adds to them is in [PyFloat]: [/]
      raises [ZeroDivisionError] on a zero divisor, [** 2] raises
      [OverflowError] when the square of a finite number is infinite, and
      [math.sqrt] raises [ValueError] below zero.
    - A JSON number of a request is a Python [int] of any size or a Python
      float; [float()] rounds an [int] to 53 significant bits and raises
      [OverflowError] beyond the range of the doubles. *)

From stdpp Require Import base option list strings gmap.
From Stdlib Require Import QArith Qabs Qpower Floats.
From Stdlib Require Lqa.

Set Warnings "-register-all,-inexact-float".

Local Open Scope string_scope.
Local Open Scope list_scope.
Local Open Scope Q_scope.

(** ** Python exceptions as an error monad *)

Inductive exn : Set :=
  | ZeroDivisionError
  | ValueError
  | TypeError
  | OverflowError
  | KeyError.

Inductive result (A : Type) : Type :=
  | Ok (a : A)
  | Raise (e : exn).
Arguments Ok {A} a.
Arguments Raise {A} e.

Global Instance result_ret : MRet result := fun _ a => Ok a.
Global Instance result_bind : MBind result := fun _ _ k c =>
  match c with
  | Ok a => k a
  | Raise e => Raise e
  end.

(** ** The Python operators the source uses on numbers *)

(** On the rationals: the comparisons with the thresholds and the clamp of
    the confidence. *)
Module Py.

(** [x > y] and [x < y]. *)
Definition gt (x y : Q) : bool := negb (Qle_bool x y).
Definition lt (x y : Q) : bool := negb (Qle_bool y x).

(** [max]/[min] keep the running winner and replace it only when the next
    item compares strictly greater / smaller. *)
Definition max2 (a b : Q) : Q := if gt b a then b else a.
Definition min2 (a b : Q) : Q := if lt b a then b else a.

End Py.

(** On binary64 values.  [+], [-], [*] and [abs] are the IEEE operations and
    never raise; an integer operand ([3], [100], [5], [1]) is converted to
    the double of the same value first. *)
Module PyFloat.

(** [x > y] and [x == y]: false as soon as one side is NaN; [0.0 == -0.0]. *)
Definition gt (x y : float) : bool := (y <? x)%float.
Definition eq (x y : float) : bool := (x =? y)%float.

(** [x / y]: raises [ZeroDivisionError] on a zero divisor, of either sign. *)
Definition truediv (x y : float) : result float :=
  if eq y 0 then Raise ZeroDivisionError else Ok (x / y)%float.

(** [abs(x)]. *)
Definition abs (x : float) : float := PrimFloat.abs x.

(** [max(a, b, c)]: the running winner is replaced only when the next item
    compares strictly greater, so a NaN in first place stays. *)
Definition max2 (a b : float) : float := if gt b a then b else a.
Definition max3 (a b c : float) : float := max2 (max2 a b) c.

(** [x ** 2], taken as the correctly rounded square: raises [OverflowError]
    when the square of a finite [x] is infinite. *)
Definition pow2 (x : float) : result float :=
  let y := (x * x)%float in
  if is_infinity y && negb (is_infinity x) then Raise OverflowError else Ok y.

(** [math.sqrt]: raises [ValueError] (math domain error) below zero, minus
    infinity included; NaN and [-0.0] are returned as they are. *)
Definition math_sqrt (x : float) : result float :=
  if (x <? 0)%float then Raise ValueError else Ok (PrimFloat.sqrt x).

End PyFloat.

(** ** [FaultType] *)

Inductive FaultType : Set :=
  | SHORT_CIRCUIT
  | OPEN_CIRCUIT
  | GROUND_FAULT
  | PHASE_IMBALANCE
  | OVERVOLTAGE
  | UNDERVOLTAGE
  | OVERCURRENT
  | HARMONIC_DISTORTION
  | POWER_FACTOR_LOW
  | NONE.

Global Instance FaultType_eq_dec : EqDecision FaultType.
Proof. solve_decision. Defined.

(** The [.value] of an enumeration member. *)
Definition value (f : FaultType) : string :=
  match f with
  | SHORT_CIRCUIT => "Short Circuit"
  | OPEN_CIRCUIT => "Open Circuit"
  | GROUND_FAULT => "Ground Fault"
  | PHASE_IMBALANCE => "Phase Imbalance"
  | OVERVOLTAGE => "Overvoltage"
  | UNDERVOLTAGE => "Undervoltage"
  | OVERCURRENT => "Overcurrent"
  | HARMONIC_DISTORTION => "Harmonic Distortion"
  | POWER_FACTOR_LOW => "Low Power Factor"
  | NONE => "No Fault"
  end.

(** ** [ElectricalReading] *)

Record ElectricalReading : Set := mkReading {
  voltage : Q;
  current : Q;
  frequency : Q;
  power_factor : Q;
  phase_a : float;
  phase_b : float;
  phase_c : float;
  temperature : Q
}.

(** One entry of [details]: which f-string was appended and the values it
    interpolates (the rendering of the numbers as text is not modelled). *)
Inductive detail : Set :=
  | DetailVoltage (v : Q)
  | DetailCurrent (c : Q)
  | DetailFrequency (f : Q)
  | DetailPowerFactor (pf : Q)
  | DetailPhaseImbalance (a b c : float)
  | DetailTemperature (t : Q).

(** The dictionary [diagnose] returns. *)
Record Diagnosis : Set := mkDiagnosis {
  primary_fault : string;
  all_faults : list string;
  severity : string;
  confidence : Q;
  details : list detail;
  action : string
}.

(** ** [FaultDiagnosis] *)

Definition VOLTAGE_MIN : Q := 200.
Definition VOLTAGE_MAX : Q := 250.
Definition CURRENT_MAX : Q := 30.
Definition FREQUENCY_MIN : Q := 48.
Definition FREQUENCY_MAX : Q := 52.
Definition POWER_FACTOR_MIN : Q := 0.85.
Definition PHASE_IMBALANCE_MAX : float := 5.
Definition TEMPERATURE_MAX : Q := 80.

Definition _check_voltage (voltage : Q) : option FaultType :=
  if Py.gt voltage VOLTAGE_MAX then Some OVERVOLTAGE
  else if Py.lt voltage VOLTAGE_MIN then Some UNDERVOLTAGE
  else None.

Definition _check_current (current : Q) : option FaultType :=
  if Py.gt current CURRENT_MAX then Some OVERCURRENT else None.

Definition _check_frequency (frequency : Q) : option FaultType :=
  if Py.lt frequency FREQUENCY_MIN || Py.gt frequency FREQUENCY_MAX
  then Some HARMONIC_DISTORTION else None.

Definition _check_power_factor (power_factor : Q) : option FaultType :=
  if Py.lt power_factor POWER_FACTOR_MIN then Some POWER_FACTOR_LOW else None.

Definition _check_phase_imbalance (va vb vc : float)
    : result (option FaultType) :=
  avg_voltage ← PyFloat.truediv (va + vb + vc)%float 3;
  if PyFloat.eq avg_voltage 0 then Ok None
  else
    qa ← PyFloat.truediv (va - avg_voltage)%float avg_voltage;
    let imbalance_a := (PyFloat.abs qa * 100)%float in
    qb ← PyFloat.truediv (vb - avg_voltage)%float avg_voltage;
    let imbalance_b := (PyFloat.abs qb * 100)%float in
    qc ← PyFloat.truediv (vc - avg_voltage)%float avg_voltage;
    let imbalance_c := (PyFloat.abs qc * 100)%float in
    let max_imbalance := PyFloat.max3 imbalance_a imbalance_b imbalance_c in
    if PyFloat.gt max_imbalance PHASE_IMBALANCE_MAX
    then Ok (Some PHASE_IMBALANCE)
    else Ok None.

Definition _check_temperature (temperature : Q) : option FaultType :=
  if Py.gt temperature TEMPERATURE_MAX then Some OVERCURRENT else None.

(** The dictionary [severity_map]: membership and lookup in one function. *)
Definition severity_map (f : FaultType) : option string :=
  match f with
  | SHORT_CIRCUIT => Some "Critical"
  | GROUND_FAULT => Some "Critical"
  | OVERCURRENT => Some "High"
  | OVERVOLTAGE => Some "High"
  | PHASE_IMBALANCE => Some "Medium"
  | POWER_FACTOR_LOW => Some "Low"
  | _ => None
  end.

(** The [for fault in faults] loop of [_calculate_severity]: the value of
    the first fault that is a key of [severity_map], ["Medium"] after the
    loop. *)
Fixpoint severity_scan (faults : list FaultType) : string :=
  match faults with
  | [] => "Medium"
  | fault :: rest =>
      match severity_map fault with
      | Some s => s
      | None => severity_scan rest
      end
  end.

Definition _calculate_severity (reading : ElectricalReading)
    (faults : list FaultType) : string :=
  if bool_decide (faults = []) || bool_decide (NONE ∈ faults) then "None"
  else if (3 <=? length faults)%nat then "Critical"
  else severity_scan faults.

(** The body of [_calculate_confidence] up to its [return]: the local
    [confidence] after the three conditional deductions. *)
Definition confidence_before_clamp (reading : ElectricalReading) : Q :=
  let confidence := 100 in
  let confidence :=
    if Py.gt (voltage reading) (VOLTAGE_MAX * 1.5)
       || Py.lt (voltage reading) (VOLTAGE_MIN * 0.5)
    then confidence - 10 else confidence in
  let confidence :=
    if Py.gt (current reading) (CURRENT_MAX * 1.5)
    then confidence - 10 else confidence in
  let confidence :=
    if Py.lt (power_factor reading) 0.7
    then confidence - 15 else confidence in
  confidence.

Definition _calculate_confidence (reading : ElectricalReading) : Q :=
  let confidence := confidence_before_clamp reading in
  Py.max2 0 (Py.min2 100 confidence).

Definition _recommend_action (fault : FaultType) : string :=
  match fault with
  | SHORT_CIRCUIT =>
      "IMMEDIATE ACTION: Isolate circuit and check for damaged wiring or components."
  | OPEN_CIRCUIT => "Check continuity and repair broken connections."
  | GROUND_FAULT =>
      "Isolate system and test insulation resistance. Repair grounding issues."
  | PHASE_IMBALANCE =>
      "Check load distribution across phases and rebalance if necessary."
  | OVERVOLTAGE => "Check voltage regulator and power supply settings."
  | UNDERVOLTAGE => "Verify power supply and transformer settings."
  | OVERCURRENT =>
      "Reduce load or check for short circuits. Verify circuit breaker rating."
  | HARMONIC_DISTORTION =>
      "Install harmonic filters or upgrade power quality equipment."
  | POWER_FACTOR_LOW => "Install power factor correction capacitors."
  | NONE => "System operating normally."
  end.

(** [if fault: faults.append(fault); details.append(d)] on the two local
    lists of [diagnose]. *)
Definition record (fault : option FaultType) (d : detail)
    (acc : list FaultType * list detail) : list FaultType * list detail :=
  match fault with
  | Some f => (acc.1 ++ [f], acc.2 ++ [d])
  | None => acc
  end.

Definition diagnose (reading : ElectricalReading) : result Diagnosis :=
  let acc : list FaultType * list detail := ([], []) in
  let voltage_fault := _check_voltage (voltage reading) in
  let acc := record voltage_fault (DetailVoltage (voltage reading)) acc in
  let current_fault := _check_current (current reading) in
  let acc := record current_fault (DetailCurrent (current reading)) acc in
  let frequency_fault := _check_frequency (frequency reading) in
  let acc := record frequency_fault (DetailFrequency (frequency reading)) acc in
  let pf_fault := _check_power_factor (power_factor reading) in
  let acc := record pf_fault (DetailPowerFactor (power_factor reading)) acc in
  imbalance_fault ←
    _check_phase_imbalance (phase_a reading) (phase_b reading) (phase_c reading);
  let acc :=
    record imbalance_fault
      (DetailPhaseImbalance (phase_a reading) (phase_b reading) (phase_c reading))
      acc in
  let temp_fault := _check_temperature (temperature reading) in
  let acc := record temp_fault (DetailTemperature (temperature reading)) acc in
  let faults := acc.1 in
  let primary_fault := match faults with f :: _ => f | [] => NONE end in
  let severity := _calculate_severity reading faults in
  Ok {| primary_fault := value primary_fault;
        all_faults := map value faults;
        severity := severity;
        confidence := _calculate_confidence reading;
        details := acc.2;
        action := _recommend_action primary_fault |}.

Definition create_sample_reading : ElectricalReading :=
  mkReading 230.0 15.5 50.0 0.92 230.5 229.8 230.2 45.5.

(** ** The checks as one list *)

(** The average of the three phases and the deviation of one phase from it,
    in percent, as [_check_phase_imbalance] computes them. *)
Definition average (va vb vc : float) : float := ((va + vb + vc) / 3)%float.

Definition deviation (v avg : float) : float :=
  (PyFloat.abs ((v - avg) / avg) * 100)%float.

(** The value [_check_phase_imbalance] returns when it returns. *)
Definition imbalance (va vb vc : float) : option FaultType :=
  let avg := average va vb vc in
  if PyFloat.eq avg 0 then None
  else if PyFloat.gt (PyFloat.max3 (deviation va avg) (deviation vb avg)
                                   (deviation vc avg))
                     PHASE_IMBALANCE_MAX
       then Some PHASE_IMBALANCE
       else None.

(** The six checks in the order of the check table, and the faults of those
    that fire. *)
Definition checks (r : ElectricalReading) : list (option FaultType) :=
  [ _check_voltage (voltage r);
    _check_current (current r);
    _check_frequency (frequency r);
    _check_power_factor (power_factor r);
    imbalance (phase_a r) (phase_b r) (phase_c r);
    _check_temperature (temperature r) ].

Definition triggered (r : ElectricalReading) : list FaultType :=
  omap (λ fault, fault) (checks r).

(** ** The derivations as the specification words them *)

(** The fixed priority table, on fault names. *)
Definition priority_table : list (string * string) :=
  [ ("Short Circuit", "Critical");
    ("Ground Fault", "Critical");
    ("Overcurrent", "High");
    ("Overvoltage", "High");
    ("Phase Imbalance", "Medium");
    ("Low Power Factor", "Low") ].

Fixpoint table_lookup (table : list (string * string)) (name : string)
    : option string :=
  match table with
  | [] => None
  | (k, v) :: rest => if bool_decide (k = name) then Some v else table_lookup rest name
  end.

(** Severity of the first name found in the table, ["Medium"] when none is. *)
Fixpoint first_in_table (names : list string) : string :=
  match names with
  | [] => "Medium"
  | n :: rest =>
      match table_lookup priority_table n with
      | Some s => s
      | None => first_in_table rest
      end
  end.

(** Severity with the three-or-more rule counting distinct fault names. *)
Definition severity_by_distinct (names : list string) : string :=
  if bool_decide (names = []) then "None"
  else if (3 <=? length (remove_dups names))%nat then "Critical"
  else first_in_table names.

(** Severity with the three-or-more rule counting the entries of the list. *)
Definition severity_by_entries (names : list string) : string :=
  if bool_decide (names = []) then "None"
  else if (3 <=? length names)%nat then "Critical"
  else first_in_table names.

(** [x] is within [p] percent of [avg], in exact arithmetic. *)
Definition within_percent (p x avg : Q) : Prop :=
  Qabs (x - avg) <= p / 100 * Qabs avg.

(** The rational a finite double denotes. *)
Definition exact (x : float) : option Q :=
  match Prim2SF x with
  | S754_zero _ => Some 0
  | S754_finite s m e => Some (inject_Z (cond_Zopp s (Zpos m)) * Qpower 2 e)
  | S754_infinity _ | S754_nan => None
  end.

(** The value of a finite double as a multiple of 2^-1074, the spacing of
    the smallest doubles; and whether a double is finite. *)
Definition scaled (x : spec_float) : Z :=
  match x with
  | S754_finite s m e => (cond_Zopp s (Zpos m) * 2 ^ (e + 1074))%Z
  | _ => 0%Z
  end.

Definition is_real (x : spec_float) : bool :=
  match x with
  | S754_zero _ | S754_finite _ _ _ => true
  | _ => false
  end.

(** A double with the sign of a zero forgotten. *)
Definition unsigned_zero (x : spec_float) : spec_float :=
  match x with
  | S754_zero _ => S754_zero false
  | _ => x
  end.

(** The average of the phases of a reading, as the engine computes it. *)
Definition phase_average (r : ElectricalReading) : float :=
  average (phase_a r) (phase_b r) (phase_c r).

(** The engine finds a phase within 5 percent of the average: the deviation
    it computes is not above 5. *)
Definition phase_within (v avg : float) : Prop :=
  PyFloat.gt (deviation v avg) PHASE_IMBALANCE_MAX = false.

(** The engine finds a phase more than 5 percent away from the average:
    the deviation it computes is above 5. *)
Definition deviates (v avg : float) : Prop :=
  PyFloat.gt (deviation v avg) PHASE_IMBALANCE_MAX = true.

(** The average the engine computes is not zero and it finds one of the
    three phases more than 5 percent away from it. *)
Definition unbalanced (va vb vc : float) : Prop :=
  let avg := average va vb vc in
  PyFloat.eq avg 0 = false
  ∧ (deviates va avg ∨ deviates vb avg ∨ deviates vc avg).

(** Confidence as the specification derives it. *)
Definition exceeds (x bound : Q) : bool :=
  if Qlt_le_dec bound x then true else false.
Definition below (x bound : Q) : bool :=
  if Qlt_le_dec x bound then true else false.
Definition deduct (cond : bool) (amount : Q) : Q :=
  if cond then amount else 0.
Definition clamp (lo hi x : Q) : Q :=
  if Qlt_le_dec x lo then lo else if Qlt_le_dec hi x then hi else x.

Definition confidence_formula (v c pf : Q) : Q :=
  clamp 0 100
    (100 - deduct (exceeds v 375 || below v 100) 10
         - deduct (exceeds c 45) 10
         - deduct (below pf 0.7) 15).

(** Number of occurrences of a name in a list of names. *)
Definition occurrences (name : string) (names : list string) : nat :=
  length (filter (λ n, n = name) names).

(** ** The power utilities of [FaultDiagnosis] *)

Module Power.

Definition calculate_power (voltage current power_factor : float) : float :=
  (voltage * current * power_factor)%float.

Definition calculate_apparent_power (voltage current : float) : float :=
  (voltage * current)%float.

Definition calculate_reactive_power (voltage current power_factor : float)
    : result float :=
  square ← PyFloat.pow2 power_factor;
  sin_phi ← PyFloat.math_sqrt (1 - square)%float;
  Ok (voltage * current * sin_phi)%float.

End Power.

(** ** The label tables of [app.py] *)

Definition FAULT_TYPES : gmap Z string :=
  <[0%Z := "Normal Operation"]>
    (<[1%Z := "Overheat"]>
       (<[2%Z := "Overload"]> (<[3%Z := "Short Circuit"]> ∅))).

Definition RECOMMENDATIONS : gmap Z string :=
  <[0%Z := "System operating normally. Continue monitoring."]>
    (<[1%Z := "Reduce load or improve cooling. Check ventilation."]>
       (<[2%Z := "Reduce load immediately. Inspect circuit breaker."]>
          (<[3%Z := "EMERGENCY: Shut down immediately. Check for faults."]>
             ∅))).

(** Lines 496-497: [FAULT_TYPES[prediction]] and
    [RECOMMENDATIONS[prediction]]; [None] when a lookup raises [KeyError]. *)
Definition labels (prediction : Z) : option (string * string) :=
  fault_type ← FAULT_TYPES !! prediction;
  recommendation ← RECOMMENDATIONS !! prediction;
  Some (fault_type, recommendation).

(** ** The [diagnose] view of [app.py] *)

Module App.

(** A Python float as [float(...)] can return it: besides the finite values
    the conversion yields infinities and NaN (from ["inf"], ["nan"],
    ["1e999"]). *)
Inductive pyfloat : Set :=
  | Finite (q : Q)
  | Infinity (negative : bool)
  | NaN.

(** A decoded JSON value of the request body, which is a JSON object: a
    number written without fraction and exponent is a Python [int], any
    other number a Python float. *)
Inductive json : Type :=
  | JNull
  | JBool (b : bool)
  | JInt (n : Z)
  | JFloat (x : pyfloat)
  | JString (s : string)
  | JArray (items : list json)
  | JObject (fields : list (string * json)).

(** The five sensor readings the handler extracts. *)
Record features : Set := mkFeatures {
  f_voltage : pyfloat;
  f_current : pyfloat;
  f_temperature : pyfloat;
  f_vibration : pyfloat;
  f_power_factor : pyfloat
}.

(** What the view returns: [jsonify({...})], or [jsonify({'status':
    'error', ...}), 400] from the [except Exception] clause. *)
Inductive response (Body : Type) : Type :=
  | Json200 (body : Body)
  | Json400 (e : exn).
Arguments Json200 {Body} body.
Arguments Json400 {Body} e.

Definition feature_keys : list string :=
  ["voltage"; "current"; "temperature"; "vibration"; "power_factor"].

(** [data.get(key, default)]. *)
Definition get (data : gmap string json) (key : string) (default : json)
    : json :=
  match data !! key with
  | Some v => v
  | None => default
  end.

(** [float(n)] on a Python [int]: the integer itself when it has at most 53
    significant bits; otherwise the integer rounded to 53 significant bits,
    to nearest and ties to even, and [OverflowError] when the rounded value
    is beyond the largest double. *)
Definition float_of_int (n : Z) : result pyfloat :=
  let a := Z.abs n in
  let k := (Z.log2 a - 52)%Z in
  if (k <=? 0)%Z then Ok (Finite (inject_Z n))
  else
    let q := (a / 2 ^ k)%Z in
    let r := (a mod 2 ^ k)%Z in
    let half := (2 ^ (k - 1))%Z in
    let q :=
      if (r <? half)%Z then q
      else if (half <? r)%Z then (q + 1)%Z
      else if Z.even q then q else (q + 1)%Z in
    let v := (q * 2 ^ k)%Z in
    if (2 ^ 1024 <=? v)%Z then Raise OverflowError
    else Ok (Finite (inject_Z (Z.sgn n * v))).

Section Handler.

(** [float(s)] on a string, [None] when it raises [ValueError]: the
    built-in's grammar is not part of the repository. *)
Variable float_of_str : string → option pyfloat.

(** The handler from [features = np.array(...)] to its [return
    jsonify(...)]: scaling, prediction, the database row and the
    report; [Raise] when any of it raises. *)
Variable Body : Type.
Variable predict_and_report : json → features → result Body.

(** [float(v)] on a decoded JSON value; [True] and [False] are the integers
    1 and 0. *)
Definition float (v : json) : result pyfloat :=
  match v with
  | JInt n => float_of_int n
  | JFloat x => Ok x
  | JBool b => Ok (Finite (if b then 1 else 0))
  | JString s =>
      match float_of_str s with
      | Some x => Ok x
      | None => Raise ValueError
      end
  | JNull | JArray _ | JObject _ => Raise TypeError
  end.

(** Lines 479-486: [device_id] and the five [float(data.get(...))]. *)
Definition extract (data : gmap string json) : result (json * features) :=
  let device_id := get data "device_id" (JString "Unknown") in
  voltage ← float (get data "voltage" (JInt 230));
  current ← float (get data "current" (JInt 50));
  temperature ← float (get data "temperature" (JInt 60));
  vibration ← float (get data "vibration" (JInt 5));
  power_factor ← float (get data "power_factor" (JFloat (Finite 0.9)));
  Ok (device_id, mkFeatures voltage current temperature vibration power_factor).

Definition diagnose (data : gmap string json) : response Body :=
  let outcome :=
    '(device_id, x) ← extract data;
    predict_and_report device_id x in
  match outcome with
  | Ok body => Json200 body
  | Raise e => Json400 e
  end.

End Handler.

Arguments diagnose float_of_str {Body} predict_and_report data.

(** Modelled from the spec: the fitted [scaler] and [model] of [init_model]
    are scikit-learn objects, loaded from a file or trained at start-up;
    their code is not part of the repository.  The specification takes them
    as total functions of the five readings ("trees and linear scaling are
    total functions over real-valued input"): [scaler.transform], the class
    [model.predict] returns, and the probability [model.predict_proba]
    gives a class. *)
Record fitted : Type := mkFitted {
  transform : features → features;
  predict : features → Z;
  predict_proba : features → Z → pyfloat
}.

Section ModelStage.

Variable Body : Type.
Variable fit : fitted.

(** Lines 499-599: the database row, the report mail and the reply, from
    the device, the readings, the fault name, the confidence and the
    recommendation; [Raise] when any of it raises. *)
Variable store_and_report :
  json → features → string → pyfloat → string → result Body.

(** Lines 488-599: the handler after the conversions. *)
Definition model_stage (device_id : json) (x : features) : result Body :=
  let features_scaled := transform fit x in
  let prediction := predict fit features_scaled in
  let confidence := predict_proba fit features_scaled prediction in
  match labels prediction with
  | None => Raise KeyError
  | Some (fault_type, recommendation) =>
      store_and_report device_id x fault_type confidence recommendation
  end.

End ModelStage.

Arguments model_stage {Body} fit store_and_report device_id x.

(** A JSON value is a number. *)
Definition numeric (v : json) : Prop :=
  match v with
  | JInt _ | JFloat _ => True
  | _ => False
  end.

(** A stand-in for [float] on strings that accepts two spellings. *)
Definition float_of_sample (s : string) : option pyfloat :=
  if bool_decide (s = "230.5") then Some (Finite 230.5)
  else if bool_decide (s = "nan") then Some NaN
  else None.

End App.

(** ** The detail lines *)

(** The six checks of [diagnose] in source order, each with the line it
    appends when it fires; [imb] is what the imbalance check returned. *)
Definition check_lines (r : ElectricalReading) (imb : option FaultType)
    : list (option FaultType * detail) :=
  [ (_check_voltage (voltage r), DetailVoltage (voltage r));
    (_check_current (current r), DetailCurrent (current r));
    (_check_frequency (frequency r), DetailFrequency (frequency r));
    (_check_power_factor (power_factor r),
     DetailPowerFactor (power_factor r));
    (imb, DetailPhaseImbalance (phase_a r) (phase_b r) (phase_c r));
    (_check_temperature (temperature r), DetailTemperature (temperature r)) ].

(** The checks that fired, each as the name of its fault with its line. *)
Definition fired (lines : list (option FaultType * detail))
    : list (string * detail) :=
  omap (λ line, (λ fault, (value fault, line.2)) <$> line.1) lines.

(** ** The input stage, reading by reading *)

(** The five keys with the default each one falls back to. *)
Definition feature_defaults : list (string * App.json) :=
  [("voltage", App.JInt 230); ("current", App.JInt 50);
   ("temperature", App.JInt 60); ("vibration", App.JInt 5);
   ("power_factor", App.JFloat (App.Finite 0.9))].

(** The five conversions in the order the handler makes them. *)
Definition conversions (float_of_str : string → option App.pyfloat)
    (data : gmap string App.json) : list (result App.pyfloat) :=
  map (λ kd, App.float float_of_str (App.get data kd.1 kd.2))
    feature_defaults.

(** The exception of the first conversion that raises. *)
Fixpoint first_error {A} (l : list (result A)) : option exn :=
  match l with
  | [] => None
  | Ok _ :: rest => first_error rest
  | Raise e :: _ => Some e
  end.

(** The extracted reading stored under a key. *)
Definition feature_field (key : string) (x : App.features)
    : option App.pyfloat :=
  if bool_decide (key = "voltage") then Some (App.f_voltage x)
  else if bool_decide (key = "current") then Some (App.f_current x)
  else if bool_decide (key = "temperature") then Some (App.f_temperature x)
  else if bool_decide (key = "vibration") then Some (App.f_vibration x)
  else if bool_decide (key = "power_factor") then Some (App.f_power_factor x)
  else None.

(** ** The account routes of [app.py]

    The table [users] is a list of rows in insertion order (the column
    [created_at] is left out); the application never deletes a row, so the
    identifier SQLite assigns is one more than the largest in the table.
    The request data is a form or a JSON object whose values are strings.
    The built-ins and libraries the routes call are parameters: [str.strip],
    the password hashing of werkzeug, the token serializer of itsdangerous,
    [url_for] and the delivery of a mail.  Exceptions of the database and of
    these libraries are not modelled. *)

Module Accounts.

Inductive method : Set := GET | POST.

Record user : Set := mkUser {
  user_id : Z;
  email : string;
  username : string;
  password_hash : string;
  is_activated : Z
}.

(** What a view returns: [jsonify({...}), code], the reply of an [except
    Exception] clause (code 400, the text of the exception as message), a
    rendered template, or a redirect to an endpoint. *)
Inductive reply : Type :=
  | Json (code : nat) (body : list (string * App.json))
  | JsonError (e : exn)
  | Page (template : string)
  | Redirect (endpoint : string).

(** [jsonify({'status': status, 'message': message}), code]. *)
Definition message_reply (code : nat) (status message : string) : reply :=
  Json code [("status", App.JString status); ("message", App.JString message)].

(** [data.get(key, '')]. *)
Definition field (data : gmap string string) (key : string) : string :=
  match data !! key with
  | Some v => v
  | None => ""
  end.

(** [SELECT ... FROM users WHERE email = ?] followed by [fetchone()]. *)
Definition find_by_email (db : list user) (e : string) : option user :=
  head (filter (λ u, email u = e) db).

(** The identifier of the next inserted row. *)
Definition next_id (db : list user) : Z :=
  (1 + foldr Z.max 0 (user_id <$> db))%Z.

(** [UPDATE users SET is_activated = 1 WHERE id = ?]. *)
Definition set_activated (uid : Z) (db : list user) : list user :=
  (λ u, if bool_decide (user_id u = uid)
        then mkUser (user_id u) (email u) (username u) (password_hash u) 1
        else u) <$> db.

(** [UPDATE users SET password_hash = ? WHERE id = ?]. *)
Definition set_password_hash (h : string) (uid : Z) (db : list user)
    : list user :=
  (λ u, if bool_decide (user_id u = uid)
        then mkUser (user_id u) (email u) (username u) h (is_activated u)
        else u) <$> db.

Section Routes.

Variable strip : string → string.
Variable generate_password_hash : string → string.
Variable check_password_hash : string → string → bool.
(** [serializer.dumps(value, salt=...)] and [serializer.loads(token,
    salt=..., max_age=...)], [None] when the latter raises. *)
Variable dumps : string → Z → string.
Variable loads : string → string → option Z.
(** [url_for(endpoint, token=..., _external=True)]. *)
Variable url_for : string → string → string.
(** Whether [mail.send] returns for a message to this recipient. *)
Variable mail_delivers : string → bool.

(** [send_activation_email]: [True] when the mail went out, [False] when
    sending raised. *)
Definition send_activation_email (user_email user_name activation_url : string)
    : bool :=
  mail_delivers user_email.

(** [register]: the reply, the table afterwards, and the activation mail it
    tried to send (recipient and link). *)
Definition register (m : method) (data : gmap string string) (db : list user)
    : reply * list user * option (string * string) :=
  match m with
  | GET => (Page "register.html", db, None)
  | POST =>
      let email := strip (field data "email") in
      let username := strip (field data "username") in
      let password := field data "password" in
      let password_confirm := field data "password_confirm" in
      if bool_decide (email = "") || bool_decide (username = "")
         || bool_decide (password = "")
      then (message_reply 400 "error" "All fields required", db, None)
      else if negb (bool_decide (password = password_confirm))
      then (message_reply 400 "error" "Passwords do not match", db, None)
      else if (String.length password <? 6)%nat
      then (message_reply 400 "error"
              "Password must be at least 6 characters", db, None)
      else
        match find_by_email db email with
        | Some _ => (message_reply 400 "error" "Email already registered",
                     db, None)
        | None =>
            let password_hash := generate_password_hash password in
            let db :=
              db ++ [mkUser (next_id db) email username password_hash 0] in
            match find_by_email db email with
            | None => (JsonError TypeError, db, None)
            | Some row =>
                let user_id := user_id row in
                let activation_token := dumps "email-confirm-salt" user_id in
                let activation_url :=
                  url_for "activate_account" activation_token in
                let email_sent :=
                  send_activation_email email username activation_url in
                let response_data :=
                  [("status", App.JString "success");
                   ("activation_url", App.JString activation_url)] in
                let response_data :=
                  if email_sent
                  then response_data
                       ++ [("message", App.JString
                              "Account created! Please check your email to activate your account.")]
                  else response_data
                       ++ [("message", App.JString
                              "Account created! Click the link below to activate your account.");
                           ("email_failed", App.JBool true)] in
                (Json 201 response_data, db, Some (email, activation_url))
            end
        end
  end.

(** [login]: the reply and the user handed to [login_user], if any. *)
Definition login (m : method) (is_authenticated : bool)
    (data : gmap string string) (db : list user) : reply * option user :=
  if is_authenticated then (Redirect "index", None)
  else
    match m with
    | GET => (Page "login.html", None)
    | POST =>
        let email := strip (field data "email") in
        let password := field data "password" in
        if bool_decide (email = "") || bool_decide (password = "")
        then (message_reply 400 "error" "Email and password required", None)
        else
          match find_by_email db email with
          | None => (message_reply 401 "error" "Invalid email or password",
                     None)
          | Some user_row =>
              if negb (check_password_hash (password_hash user_row) password)
              then (message_reply 401 "error" "Invalid email or password",
                    None)
              else if bool_decide (is_activated user_row = 0%Z)
              then (message_reply 403 "error"
                      "Please activate your account using the link sent to your email",
                    None)
              else
                (Json 200 [("status", App.JString "success");
                           ("message", App.JString "Login successful");
                           ("redirect", App.JString "/")],
                 Some user_row)
          end
    end.

(** [activate_account]: the page and the table afterwards. *)
Definition activate_account (token : string) (db : list user)
    : reply * list user :=
  match loads "email-confirm-salt" token with
  | Some user_id => (Page "activation_success.html", set_activated user_id db)
  | None => (Page "activation_failed.html", db)
  end.

(** [forgot_password]: the reply and the reset mail it tried to send
    (recipient and link). *)
Definition forgot_password (m : method) (data : gmap string string)
    (db : list user) : reply * option (string * string) :=
  match m with
  | GET => (Page "forgot_password.html", None)
  | POST =>
      let email := strip (field data "email") in
      if bool_decide (email = "")
      then (message_reply 400 "error" "Email is required", None)
      else
        match find_by_email db email with
        | None =>
            (message_reply 200 "success"
               "If an account exists with this email, a reset link has been sent",
             None)
        | Some user_row =>
            let reset_token := dumps "password-reset-salt" (user_id user_row) in
            let reset_url := url_for "reset_password" reset_token in
            (message_reply 200 "success"
               "If an account exists with this email, check your inbox for a password reset link.",
             Some (email, reset_url))
        end
  end.

(** [reset_password]: the reply and the table afterwards. *)
Definition reset_password (token : string) (m : method)
    (data : gmap string string) (db : list user) : reply * list user :=
  match loads "password-reset-salt" token with
  | None => (Page "activation_failed.html", db)
  | Some user_id =>
      match m with
      | POST =>
          let password := field data "password" in
          if bool_decide (password = "")
          then (message_reply 400 "error" "Password is required", db)
          else if (String.length password <? 6)%nat
          then (message_reply 400 "error"
                  "Password must be at least 6 characters", db)
          else
            let password_hash := generate_password_hash password in
            (message_reply 200 "success" "Password reset successfully",
             set_password_hash password_hash user_id db)
      | GET => (Page "reset_password.html", db)
      end
  end.

End Routes.

(** The two uniqueness constraints of the table: the primary key and the
    [UNIQUE] column [email]. *)
Definition unique (db : list user) : Prop :=
  NoDup (user_id <$> db) ∧ NoDup (email <$> db).

(** Stand-ins for the library functions, for worked examples. *)
Definition sample_hash (password : string) : string := "pbkdf2:" +:+ password.
Definition sample_check (pwhash password : string) : bool :=
  bool_decide (pwhash = sample_hash password).
Definition sample_dumps (salt : string) (value : Z) : string :=
  salt +:+ (if bool_decide (value = 1%Z) then ":1" else ":other").
Definition sample_loads (salt token : string) : option Z :=
  if bool_decide (token = salt +:+ ":1") then Some 1%Z else None.
Definition sample_url (endpoint token : string) : string :=
  endpoint +:+ "/" +:+ token.

End Accounts.

(** ** When a registration is accepted *)

(** The request passes the four checks of [register]: no empty field, the
    confirmation matches, the password has six characters or more, and the
    address is not in the table yet. *)
Definition acceptable (strip : string → string) (data : gmap string string)
    (db : list Accounts.user) : Prop :=
  strip (Accounts.field data "email") ≠ ""
  ∧ strip (Accounts.field data "username") ≠ ""
  ∧ Accounts.field data "password" ≠ ""
  ∧ Accounts.field data "password" = Accounts.field data "password_confirm"
  ∧ (6 ≤ String.length (Accounts.field data "password"))%nat
  ∧ strip (Accounts.field data "email") ∉ (Accounts.email <$> db).

Global Instance acceptable_dec strip data db : Decision (acceptable strip data db).
Proof. unfold acceptable. apply _. Defined.

(** The row a registration inserts. *)
Definition new_row (strip generate_password_hash : string → string)
    (data : gmap string string) (db : list Accounts.user) : Accounts.user :=
  Accounts.mkUser (Accounts.next_id db)
    (strip (Accounts.field data "email"))
    (strip (Accounts.field data "username"))
    (generate_password_hash (Accounts.field data "password")) 0.

(** A request and a table for worked examples. *)
Definition sample_form : gmap string string :=
  <["email" := "ann@example.org"]>
    (<["username" := "ann"]>
       (<["password" := "secret1"]>
          (<["password_confirm" := "secret1"]> ∅))).

Definition sample_users : list Accounts.user :=
  [Accounts.mkUser 1 "ann@example.org" "ann" (Accounts.sample_hash "secret1") 1;
   Accounts.mkUser 2 "bob@example.org" "bob" (Accounts.sample_hash "hunter22") 0].

(** A request of a visitor who is not in [sample_users] yet. *)
Definition sample_new_form : gmap string string :=
  <["email" := "eve@example.org"]>
    (<["username" := "eve"]>
       (<["password" := "letmein9"]>
          (<["password_confirm" := "letmein9"]> ∅))).

(** * Properties *)

(** ** The Python comparisons with the thresholds, read as order on [Q] *)

Lemma gt_true x y : Py.gt x y = true ↔ y < x.
Proof.
  unfold Py.gt. rewrite negb_true_iff, <- not_true_iff_false, Qle_bool_iff.
  split; [apply Qnot_le_lt | apply Qlt_not_le].
Qed.

Lemma gt_false x y : Py.gt x y = false ↔ x <= y.
Proof. unfold Py.gt. rewrite negb_false_iff. apply Qle_bool_iff. Qed.

Lemma lt_true x y : Py.lt x y = true ↔ x < y.
Proof. apply gt_true. Qed.

Lemma lt_false x y : Py.lt x y = false ↔ y <= x.
Proof. apply gt_false. Qed.

(** ** The Python operators on doubles *)

Lemma truediv_nonzero x y :
  PyFloat.eq y 0 = false → PyFloat.truediv x y = Ok (x / y)%float.
Proof. intros H. unfold PyFloat.truediv. now rewrite H. Qed.

Lemma truediv_zero x y :
  PyFloat.eq y 0 = true → PyFloat.truediv x y = Raise ZeroDivisionError.
Proof. intros H. unfold PyFloat.truediv. now rewrite H. Qed.

(** [max] returns one of its arguments. *)
Lemma max3_cases a b c :
  PyFloat.max3 a b c = a ∨ PyFloat.max3 a b c = b ∨ PyFloat.max3 a b c = c.
Proof.
  unfold PyFloat.max3, PyFloat.max2.
  destruct (PyFloat.gt b a); destruct (PyFloat.gt c _); auto.
Qed.

(** ** Binary64: the sign of a rounded difference, and exact sums

    The facts about binary64 are proved on its specification
    ([SpecFloat]), to which the operations of [float] are tied by the
    library's statements about them. *)

Lemma digits2_pos_size m : digits2_pos m = Pos.size m.
Proof. induction m as [m IH | m IH |]; simpl; now rewrite ?IH. Qed.

Lemma digits2_pos_bounds m :
  (2 ^ (Zpos (digits2_pos m) - 1) ≤ Zpos m < 2 ^ Zpos (digits2_pos m))%Z.
Proof.
  rewrite digits2_pos_size.
  pose proof (Pos.size_gt m) as Hgt. pose proof (Pos.size_le m) as Hle.
  split.
  - apply Pos2Z.pos_le_pos in Hle. rewrite Pos2Z.inj_pow in Hle.
    replace (Zpos (Pos.size m)) with (Z.succ (Zpos (Pos.size m) - 1))%Z in Hle
      by lia.
    rewrite Z.pow_succ_r in Hle by lia. lia.
  - apply Pos2Z.pos_lt_pos in Hgt. now rewrite Pos2Z.inj_pow in Hgt.
Qed.

Lemma shr_1_m r : (0 ≤ shr_m r)%Z → shr_m (shr_1 r) = (shr_m r / 2)%Z.
Proof.
  destruct r as [m b s]. simpl. intros Hm.
  destruct m as [| [p | p |] | p]; cbn [shr_m]; try lia.
  - reflexivity.
  - rewrite Pos2Z.inj_xI. apply Z.div_unique with 1%Z; lia.
  - rewrite Pos2Z.inj_xO. apply Z.div_unique with 0%Z; lia.
  - reflexivity.
Qed.

Lemma iter_shr_1_m n r :
  (0 ≤ shr_m r)%Z → shr_m (iter_pos shr_1 n r) = (shr_m r / 2 ^ Zpos n)%Z.
Proof.
  revert r. induction n as [n IH | n IH |]; intros r Hm; simpl iter_pos.
  - assert (H1 : (0 ≤ shr_m (shr_1 r))%Z).
    { rewrite shr_1_m by exact Hm. apply Z.div_pos; lia. }
    assert (H2 : (0 ≤ shr_m (iter_pos shr_1 n (shr_1 r)))%Z).
    { rewrite IH by exact H1. apply Z.div_pos; [exact H1 | lia]. }
    rewrite IH, IH, shr_1_m by assumption.
    rewrite !Z.div_div by lia. f_equal.
    rewrite (Pos2Z.inj_xI n).
    replace (2 * Zpos n + 1)%Z with (1 + Zpos n + Zpos n)%Z by lia.
    rewrite !Z.pow_add_r, Z.pow_1_r by lia. ring.
  - assert (H2 : (0 ≤ shr_m (iter_pos shr_1 n r))%Z).
    { rewrite IH by exact Hm. apply Z.div_pos; [exact Hm | lia]. }
    rewrite IH, IH by assumption.
    rewrite !Z.div_div by lia. f_equal.
    rewrite (Pos2Z.inj_xO n).
    replace (2 * Zpos n)%Z with (Zpos n + Zpos n)%Z by lia.
    rewrite Z.pow_add_r by lia. ring.
  - rewrite shr_1_m by exact Hm. reflexivity.
Qed.

Lemma shr_record_of_loc_m m l : shr_m (shr_record_of_loc m l) = m.
Proof. now destruct l as [| []]. Qed.

Lemma shr_fexp_pos p e l :
  (-1074 ≤ e)%Z →
  ∃ mrs e', shr_fexp prec emax (Zpos p) e l = (mrs, e')
    ∧ (0 < shr_m mrs)%Z ∧ (-1074 ≤ e')%Z.
Proof.
  intros He. unfold shr_fexp, shr. cbn [Zdigits2].
  pose proof (digits2_pos_bounds p) as [Hlo _].
  set (d := Zpos (digits2_pos p)) in *.
  destruct (fexp prec emax (d + e) - e)%Z as [| q | q] eqn:Hn.
  - eexists _, _. split; [reflexivity |].
    rewrite shr_record_of_loc_m. lia.
  - eexists _, _. split; [reflexivity |].
    rewrite iter_shr_1_m, shr_record_of_loc_m
      by (rewrite shr_record_of_loc_m; lia).
    split; [| lia].
    assert (Hq : (Zpos q ≤ d - 1)%Z).
    { unfold fexp, SpecFloat.emin, prec, emax in Hn. lia. }
    assert (Hpow : (2 ^ Zpos q ≤ 2 ^ (d - 1))%Z)
      by (apply Z.pow_le_mono_r; lia).
    apply Z.lt_le_trans with 1%Z; [lia |].
    apply Z.div_le_lower_bound; lia.
  - eexists _, _. split; [reflexivity |].
    rewrite shr_record_of_loc_m. lia.
Qed.

Lemma round_nearest_even_pos m l : (0 < m)%Z → (0 < round_nearest_even m l)%Z.
Proof.
  intros Hm. destruct l as [| []]; simpl; try lia.
  destruct (Z.even m); lia.
Qed.

(** A rounded value carries the sign it was given. *)
Lemma binary_round_aux_sign s m e l :
  match binary_round_aux prec emax s m e l with
  | S754_zero s' | S754_infinity s' | S754_finite s' _ _ => s' = s
  | S754_nan => True
  end.
Proof.
  unfold binary_round_aux.
  destruct (shr_fexp prec emax m e l) as [mrs e'].
  destruct (shr_fexp prec emax _ e' loc_Exact) as [mrs' e''].
  destruct (shr_m mrs'); [reflexivity | | exact I].
  now destruct (e'' <=? emax - prec)%Z.
Qed.

(** A non-zero integer at an exponent no less than the smallest one does not
    round to zero. *)
Lemma binary_round_aux_pos s p e l :
  (-1074 ≤ e)%Z →
  match binary_round_aux prec emax s (Zpos p) e l with
  | S754_infinity s' | S754_finite s' _ _ => s' = s
  | _ => False
  end.
Proof.
  intros He. unfold binary_round_aux.
  destruct (shr_fexp_pos p e l He) as (mrs & e' & -> & Hpos & He').
  pose proof (round_nearest_even_pos _ (loc_of_shr_record mrs) Hpos) as Hr.
  destruct (round_nearest_even _ _) as [| p1 | p1]; try lia.
  destruct (shr_fexp_pos p1 e' loc_Exact He') as (mrs' & e'' & -> & Hpos' & _).
  destruct (shr_m mrs'); try lia.
  now destruct (e'' <=? emax - prec)%Z.
Qed.

Lemma binary_round_sign s p e :
  match binary_round prec emax s p e with
  | S754_zero s' | S754_infinity s' | S754_finite s' _ _ => s' = s
  | S754_nan => True
  end.
Proof.
  unfold binary_round. destruct (shl_align _ _ _) as [mz ez].
  apply binary_round_aux_sign.
Qed.

Lemma binary_round_pos s p e :
  (-1074 ≤ e)%Z →
  match binary_round prec emax s p e with
  | S754_infinity s' | S754_finite s' _ _ => s' = s
  | _ => False
  end.
Proof.
  intros He. unfold binary_round, shl_align.
  destruct (_ - e)%Z eqn:Hd; apply binary_round_aux_pos; try exact He.
  unfold fexp, SpecFloat.emin, prec, emax. lia.
Qed.

Lemma iter_xO p d : Zpos (Pos.iter xO p d) = (Zpos p * 2 ^ Zpos d)%Z.
Proof.
  induction d as [| d IH] using Pos.peano_ind.
  - simpl. lia.
  - rewrite Pos.iter_succ, Pos2Z.inj_xO, IH, Pos2Z.inj_succ, Z.pow_succ_r by lia.
    ring.
Qed.

Lemma Prim2SF_one : Prim2SF 1 = S754_finite false 4503599627370496 (-52).
Proof. reflexivity. Qed.

Lemma Prim2SF_zero : Prim2SF 0 = S754_zero false.
Proof. reflexivity. Qed.

Lemma pos_compare_Z m c :
  Pos.compare_cont Eq m c = Z.compare (Zpos m) (Zpos c).
Proof. reflexivity. Qed.

Lemma valid_finite s m e :
  valid_binary (S754_finite s m e) = true →
  (-1074 ≤ e ≤ 971)%Z
  ∧ (Zpos m < 9007199254740992)%Z
  ∧ ((-1074 < e)%Z → (4503599627370496 ≤ Zpos m)%Z).
Proof.
  unfold SpecFloat.valid_binary, bounded, canonical_mantissa.
  rewrite andb_true_iff, Z.eqb_eq, Z.leb_le.
  unfold fexp, SpecFloat.emin, prec, emax. intros [Hc He].
  pose proof (digits2_pos_bounds m) as [Hlo Hhi].
  set (d := Zpos (digits2_pos m)) in *.
  split; [lia |]. split.
  - change 9007199254740992%Z with (2 ^ 53)%Z.
    apply Z.lt_le_trans with (2 ^ d)%Z; [exact Hhi |].
    apply Z.pow_le_mono_r; lia.
  - intros Hnorm. assert (d = 53%Z) as Hd by lia.
    rewrite Hd in Hlo. exact Hlo.
Qed.

Lemma shl_align_fst m e e' :
  (e' ≤ e)%Z → Zpos (shl_align m e e').1 = (Zpos m * 2 ^ (e - e'))%Z.
Proof.
  intros He. unfold shl_align.
  destruct (e' - e)%Z as [| d | d] eqn:Hd; cbn [fst]; try lia.
  - replace (e - e')%Z with 0%Z by lia. lia.
  - rewrite iter_xO. f_equal. f_equal. lia.
Qed.

(** [1 - y] is not negative when [y <= 1]. *)
Lemma sub_one_nonneg y : (y <=? 1)%float = true → (1 - y <? 0)%float = false.
Proof.
  rewrite leb_spec, ltb_spec, sub_spec, Prim2SF_one, Prim2SF_zero.
  pose proof (Prim2SF_valid y) as Hvalid.
  destruct (Prim2SF y) as [s | s | | s m e]; try destruct s; try reflexivity;
    try discriminate.
  - intros _. unfold SF64sub, SFsub. cbn [cond_Zopp].
    rewrite !shl_align_fst by lia.
    match goal with
    | |- context [binary_normalize _ _ ?z _ _] =>
        assert (Hz : ∃ p, z = Zpos p)
    end.
    { assert (0 < 2 ^ (-52 - Z.min (-52) e))%Z by (apply Z.pow_pos_nonneg; lia).
      assert (0 < 2 ^ (e - Z.min (-52) e))%Z by (apply Z.pow_pos_nonneg; lia).
      match goal with
      | |- ∃ p, ?z = _ => destruct z as [| p | p] eqn:Hz; [nia | eauto | nia]
      end. }
    destruct Hz as [p ->]. cbn [binary_normalize]. unfold SFltb.
    pose proof (binary_round_sign false p (Z.min (-52) e)) as Hs.
    destruct (binary_round _ _ _ _ _); try subst; reflexivity.
  - apply valid_finite in Hvalid as (He & Hm & Hnorm).
    unfold SFleb, SFcompare. intros Hle.
    assert (Hcases : (e < -52)%Z ∨ (e = -52%Z ∧ Zpos m ≤ 4503599627370496)%Z).
    { destruct (Z.compare_spec e (-52)) as [-> | Hlt | Hgt];
        [right | now left | discriminate Hle].
      split; [reflexivity |].
      rewrite pos_compare_Z in Hle.
      destruct (Z.compare_spec (Zpos m) 4503599627370496);
        [lia | lia | discriminate Hle]. }
    clear Hle. unfold SF64sub, SFsub. cbn [cond_Zopp].
    rewrite !shl_align_fst by lia.
    assert (Hmin : Z.min (-52) e = e) by lia. rewrite Hmin, Z.sub_diag.
    match goal with
    | |- context [binary_normalize _ _ ?z _ _] => assert (Hz : (0 ≤ z)%Z)
    end.
    { destruct Hcases as [Hlt | [-> Hle]].
      - assert (2 ^ 1 ≤ 2 ^ (-52 - e))%Z by (apply Z.pow_le_mono_r; lia). lia.
      - change (2 ^ (-52 - -52))%Z with 1%Z. lia. }
    unfold SFltb.
    destruct (_ - _)%Z as [| p | p]; [reflexivity | | lia].
    cbn [binary_normalize].
    pose proof (binary_round_sign false p e) as Hs.
    destruct (binary_round _ _ _ _ _); try subst; reflexivity.
Qed.

(** [1 - y] is negative when [1 < y]. *)
Lemma sub_one_neg y : (1 <? y)%float = true → (1 - y <? 0)%float = true.
Proof.
  rewrite !ltb_spec, sub_spec, Prim2SF_one, Prim2SF_zero.
  pose proof (Prim2SF_valid y) as Hvalid.
  destruct (Prim2SF y) as [s | s | | s m e]; try destruct s; try reflexivity;
    try discriminate.
  apply valid_finite in Hvalid as (He & Hm & Hnorm).
  unfold SFltb at 1. unfold SFcompare. intros Hlt.
  assert (Hcases : (-52 < e)%Z ∨ (e = -52%Z ∧ 4503599627370496 < Zpos m)%Z).
  { destruct (Z.compare_spec (-52) e) as [<- | Hlt' | Hgt];
      [right | now left | discriminate Hlt].
    split; [reflexivity |].
    rewrite pos_compare_Z in Hlt.
    destruct (Z.compare_spec 4503599627370496 (Zpos m));
      [discriminate Hlt | lia | discriminate Hlt]. }
  clear Hlt. unfold SF64sub, SFsub. cbn [cond_Zopp].
  rewrite !shl_align_fst by lia.
  assert (Hmin : Z.min (-52) e = (-52)%Z) by lia. rewrite Hmin, Z.sub_diag.
  match goal with
  | |- context [binary_normalize _ _ ?z _ _] => assert (Hz : (z < 0)%Z)
  end.
  { destruct Hcases as [Hgt | [-> Hgt]].
    - assert (2 ^ 1 ≤ 2 ^ (e - -52))%Z by (apply Z.pow_le_mono_r; lia).
      specialize (Hnorm ltac:(lia)). nia.
    - change (2 ^ (-52 - -52))%Z with 1%Z. lia. }
  unfold SFltb.
  destruct (_ - _)%Z as [| p | p]; [lia | lia |].
  cbn [binary_normalize].
  pose proof (binary_round_pos true p (-52) ltac:(lia)) as Hs.
  destruct (binary_round _ _ _ _ _); try contradiction; subst; reflexivity.
Qed.

Lemma Prim2SF_infinity : Prim2SF infinity = S754_infinity false.
Proof. reflexivity. Qed.

Lemma is_infinity_spec x :
  is_infinity x = true ↔ ∃ s, Prim2SF x = S754_infinity s.
Proof.
  unfold is_infinity. rewrite eqb_spec, abs_spec, Prim2SF_infinity.
  destruct (Prim2SF x) as [s | s | | s m e]; cbn; split;
    try discriminate; eauto; intros [s' H]; discriminate H.
Qed.

(** A square is not minus infinity. *)
Lemma square_not_neg_infinity x : Prim2SF (x * x) ≠ S754_infinity true.
Proof.
  rewrite mul_spec. unfold SF64mul.
  destruct (Prim2SF x) as [s | s | | s m e]; cbn [SFmul];
    try discriminate; try (destruct s; discriminate).
  pose proof (binary_round_aux_sign (xorb s s) (Zpos (m * m)) (e + e)%Z
                loc_Exact) as Hs.
  destruct (binary_round_aux _ _ _ _ _ _); try discriminate.
  intros [= ->]. now destruct s.
Qed.

(** Shifting out zero bits leaves no remainder. *)
Lemma iter_shr_1_exact n p :
  iter_pos shr_1 n
    {| shr_m := Zpos p * 2 ^ Zpos n; shr_r := false; shr_s := false |}
  = {| shr_m := Zpos p; shr_r := false; shr_s := false |}.
Proof.
  revert p. induction n as [n IH | n IH |]; intros p; cbn [iter_pos].
  - replace (Zpos p * 2 ^ Zpos n~1)%Z
      with (Zpos (p * 2 ^ n * 2 ^ n)~0)%Z.
    + cbn [shr_1 orb].
      replace (Zpos (p * 2 ^ n * 2 ^ n))
        with (Zpos (p * 2 ^ n) * 2 ^ Zpos n)%Z
        by (rewrite !Pos2Z.inj_mul, !Pos2Z.inj_pow; reflexivity).
      rewrite IH.
      replace (Zpos (p * 2 ^ n)) with (Zpos p * 2 ^ Zpos n)%Z
        by (rewrite !Pos2Z.inj_mul, !Pos2Z.inj_pow; reflexivity).
      apply IH.
    + rewrite Pos2Z.inj_xO, !Pos2Z.inj_mul, !Pos2Z.inj_pow, (Pos2Z.inj_xI n).
      replace (2 * Zpos n + 1)%Z with (1 + Zpos n + Zpos n)%Z by lia.
      rewrite !Z.pow_add_r, Z.pow_1_r by lia. ring.
  - replace (Zpos p * 2 ^ Zpos n~0)%Z
      with (Zpos (p * 2 ^ n) * 2 ^ Zpos n)%Z.
    + rewrite IH.
      replace (Zpos (p * 2 ^ n)) with (Zpos p * 2 ^ Zpos n)%Z
        by (rewrite !Pos2Z.inj_mul, !Pos2Z.inj_pow; reflexivity).
      apply IH.
    + rewrite !Pos2Z.inj_mul, !Pos2Z.inj_pow, (Pos2Z.inj_xO n).
      replace (2 * Zpos n)%Z with (Zpos n + Zpos n)%Z by lia.
      rewrite !Z.pow_add_r by lia. ring.
  - rewrite Z.pow_1_r, Z.mul_comm. reflexivity.
Qed.

(** Two numbers with the same value have the same number of digits,
    exponent counted. *)
Lemma digits_exponent m e m' e' :
  (0 ≤ e)%Z → (0 ≤ e')%Z →
  (Zpos m * 2 ^ e = Zpos m' * 2 ^ e')%Z →
  (Zpos (digits2_pos m) + e = Zpos (digits2_pos m') + e')%Z.
Proof.
  intros He He' Heq.
  pose proof (digits2_pos_bounds m) as [Hlo Hhi].
  pose proof (digits2_pos_bounds m') as [Hlo' Hhi'].
  set (d := Zpos (digits2_pos m)) in *. set (d' := Zpos (digits2_pos m')) in *.
  assert (Hd : (0 < d)%Z) by (unfold d; lia).
  assert (Hd' : (0 < d')%Z) by (unfold d'; lia).
  assert (H2e : (0 < 2 ^ e)%Z) by (apply Z.pow_pos_nonneg; lia).
  assert (H2e' : (0 < 2 ^ e')%Z) by (apply Z.pow_pos_nonneg; lia).
  assert (B1 : (2 ^ (d - 1 + e) ≤ Zpos m * 2 ^ e < 2 ^ (d + e))%Z).
  { rewrite !Z.pow_add_r by lia. split; nia. }
  assert (B2 : (2 ^ (d' - 1 + e') ≤ Zpos m' * 2 ^ e' < 2 ^ (d' + e'))%Z).
  { rewrite !Z.pow_add_r by lia. split; nia. }
  rewrite Heq in B1.
  destruct (Z.lt_trichotomy (d + e) (d' + e')) as [Hlt | [Heq' | Hgt]];
    [| exact Heq' |]; exfalso.
  - assert (2 ^ (d + e) ≤ 2 ^ (d' - 1 + e'))%Z
      by (apply Z.pow_le_mono_r; lia). lia.
  - assert (2 ^ (d' + e') ≤ 2 ^ (d - 1 + e))%Z
      by (apply Z.pow_le_mono_r; lia). lia.
Qed.

Lemma valid_canonical s m e :
  valid_binary (S754_finite s m e) = true →
  fexp prec emax (Zpos (digits2_pos m) + e) = e ∧ (-1074 ≤ e ≤ 971)%Z.
Proof.
  unfold SpecFloat.valid_binary, bounded, canonical_mantissa.
  rewrite andb_true_iff, Z.eqb_eq, Z.leb_le. intros [Hc He].
  split; [exact Hc |].
  unfold fexp, SpecFloat.emin, prec, emax in *. lia.
Qed.

Lemma shr_fexp_canonical s m e :
  valid_binary (S754_finite s m e) = true →
  shr_fexp prec emax (Zpos m) e loc_Exact
  = ({| shr_m := Zpos m; shr_r := false; shr_s := false |}, e).
Proof.
  intros Hv. destruct (valid_canonical s m e Hv) as [Hc _].
  unfold shr_fexp. cbn [Zdigits2]. rewrite Hc, Z.sub_diag. reflexivity.
Qed.

(** Rounding a canonical mantissa and exponent changes nothing. *)
Lemma binary_round_aux_canonical s m e :
  valid_binary (S754_finite s m e) = true →
  binary_round_aux prec emax s (Zpos m) e loc_Exact = S754_finite s m e.
Proof.
  intros Hv. unfold binary_round_aux.
  rewrite (shr_fexp_canonical s m e Hv).
  cbn [shr_m loc_of_shr_record round_nearest_even].
  rewrite (shr_fexp_canonical s m e Hv). cbn [shr_m].
  destruct (valid_canonical s m e Hv) as [_ He].
  replace (e <=? emax - prec)%Z with true; [reflexivity |].
  symmetry. apply Z.leb_le. unfold emax, prec. lia.
Qed.

Lemma shr_fexp_exact s m e mf ef :
  valid_binary (S754_finite s mf ef) = true →
  (e < ef)%Z → Zpos m = (Zpos mf * 2 ^ (ef - e))%Z →
  shr_fexp prec emax (Zpos m) e loc_Exact
  = ({| shr_m := Zpos mf; shr_r := false; shr_s := false |}, ef).
Proof.
  intros Hv He Hm. destruct (valid_canonical s mf ef Hv) as [Hc _].
  unfold shr_fexp. cbn [Zdigits2].
  assert (Hd : (Zpos (digits2_pos m) + e = Zpos (digits2_pos mf) + ef)%Z).
  { pose proof (digits_exponent m 0 mf (ef - e)) as H.
    rewrite Z.pow_0_r, Z.mul_1_r in H. specialize (H ltac:(lia) ltac:(lia) Hm).
    lia. }
  rewrite Hd, Hc. cbn [shr_record_of_loc].
  destruct (ef - e)%Z as [| n | n] eqn:Hn; try lia.
  cbn [shr]. rewrite Hm, iter_shr_1_exact. f_equal. lia.
Qed.

(** A number that is the value of a double rounds to that double. *)
Lemma binary_round_exact s m e mf ef :
  valid_binary (S754_finite s mf ef) = true →
  (-1074 ≤ e)%Z →
  (Zpos m * 2 ^ (e + 1074) = Zpos mf * 2 ^ (ef + 1074))%Z →
  binary_round prec emax s m e = S754_finite s mf ef.
Proof.
  intros Hv He Hval. destruct (valid_canonical s mf ef Hv) as [Hc Hef].
  assert (Hd : (Zpos (digits2_pos m) + e = Zpos (digits2_pos mf) + ef)%Z).
  { pose proof (digits_exponent m (e + 1074) mf (ef + 1074)
                  ltac:(lia) ltac:(lia) Hval). lia. }
  unfold binary_round. rewrite Hd, Hc.
  destruct (Z.le_gt_cases ef e) as [Hle | Hgt].
  - pose proof (shl_align_fst m e ef Hle) as Hfst.
    assert (Hsnd : (shl_align m e ef).2 = ef).
    { unfold shl_align. destruct (ef - e)%Z eqn:Hn; cbn [snd]; lia. }
    destruct (shl_align m e ef) as [mz ez]. cbn [fst snd] in Hfst, Hsnd.
    subst ez.
    assert (Hmz : Zpos mz = Zpos mf).
    { assert (H2 : (0 < 2 ^ (ef + 1074))%Z) by (apply Z.pow_pos_nonneg; lia).
      apply (Z.mul_cancel_r _ _ (2 ^ (ef + 1074))); [lia |].
      rewrite <- Hval, Hfst, <- Z.mul_assoc, <- Z.pow_add_r by lia.
      do 2 f_equal. lia. }
    injection Hmz as ->. now apply binary_round_aux_canonical.
  - assert (Hsh : shl_align m e ef = (m, e)).
    { unfold shl_align. destruct (ef - e)%Z eqn:Hn; try reflexivity. lia. }
    rewrite Hsh.
    assert (Hm : Zpos m = (Zpos mf * 2 ^ (ef - e))%Z).
    { assert (H2 : (0 < 2 ^ (e + 1074))%Z) by (apply Z.pow_pos_nonneg; lia).
      apply (Z.mul_cancel_r _ _ (2 ^ (e + 1074))); [lia |].
      rewrite Hval, <- Z.mul_assoc, <- Z.pow_add_r by lia.
      do 2 f_equal. lia. }
    rewrite <- (binary_round_aux_canonical s mf ef Hv).
    unfold binary_round_aux.
    now rewrite (shr_fexp_exact s m e mf ef Hv Hgt Hm),
      (shr_fexp_canonical s mf ef Hv).
Qed.

Lemma scaled_finite_sign (s : bool) m e :
  (-1074 ≤ e)%Z →
  if s then (scaled (S754_finite s m e) < 0)%Z
  else (0 < scaled (S754_finite s m e))%Z.
Proof.
  intros He. assert (0 < 2 ^ (e + 1074))%Z by (apply Z.pow_pos_nonneg; lia).
  destruct s; cbn [scaled cond_Zopp]; nia.
Qed.

(** Two doubles with the same value are the same double. *)
Lemma canonical_unique s m e s' m' e' :
  valid_binary (S754_finite s m e) = true →
  valid_binary (S754_finite s' m' e') = true →
  scaled (S754_finite s m e) = scaled (S754_finite s' m' e') →
  S754_finite s m e = S754_finite s' m' e'.
Proof.
  intros Hv Hv' Heq.
  destruct (valid_canonical s m e Hv) as [_ He].
  destruct (valid_canonical s' m' e' Hv') as [_ He'].
  pose proof (scaled_finite_sign s m e ltac:(lia)) as Hs.
  pose proof (scaled_finite_sign s' m' e' ltac:(lia)) as Hs'.
  assert (Hsign : s = s') by (destruct s, s'; try reflexivity; lia).
  subst s'.
  assert (Hval : (Zpos m * 2 ^ (e + 1074) = Zpos m' * 2 ^ (e' + 1074))%Z).
  { destruct s; cbn [scaled cond_Zopp] in Heq; lia. }
  rewrite <- (binary_round_exact s m e m e Hv ltac:(lia) eq_refl).
  apply binary_round_exact; [exact Hv' | lia | exact Hval].
Qed.

Lemma scale_shift m e ez :
  (ez ≤ e)%Z → (-1074 ≤ ez)%Z →
  (Zpos m * 2 ^ (e - ez) * 2 ^ (ez + 1074) = Zpos m * 2 ^ (e + 1074))%Z.
Proof.
  intros H1 H2. rewrite <- Z.mul_assoc, <- Z.pow_add_r by lia.
  do 2 f_equal. lia.
Qed.

(** The sum of two finite doubles is their exact sum, rounded. *)
Lemma add_finite sa ma ea sb mb eb :
  (-1074 ≤ ea)%Z → (-1074 ≤ eb)%Z →
  ∃ M, SF64add (S754_finite sa ma ea) (S754_finite sb mb eb)
       = binary_normalize prec emax M (Z.min ea eb) false
    ∧ (M * 2 ^ (Z.min ea eb + 1074)
       = scaled (S754_finite sa ma ea) + scaled (S754_finite sb mb eb))%Z.
Proof.
  intros Ha Hb. unfold SF64add, SFadd. eexists. split; [reflexivity |].
  rewrite !shl_align_fst by lia. cbn [scaled].
  rewrite Z.mul_add_distr_r.
  pose proof (scale_shift ma ea (Z.min ea eb) ltac:(lia) ltac:(lia)) as H1.
  pose proof (scale_shift mb eb (Z.min ea eb) ltac:(lia) ltac:(lia)) as H2.
  destruct sa, sb; cbn [cond_Zopp]; rewrite ?Z.mul_opp_l, H1, H2; reflexivity.
Qed.

Lemma normalize_exact M ez s m e :
  valid_binary (S754_finite s m e) = true →
  (-1074 ≤ ez)%Z →
  (M * 2 ^ (ez + 1074) = scaled (S754_finite s m e))%Z →
  binary_normalize prec emax M ez false = S754_finite s m e.
Proof.
  intros Hv Hez Hval.
  destruct (valid_canonical s m e Hv) as [_ He].
  pose proof (scaled_finite_sign s m e ltac:(lia)) as Hs.
  assert (H2 : (0 < 2 ^ (ez + 1074))%Z) by (apply Z.pow_pos_nonneg; lia).
  destruct M as [| p | p]; cbn [binary_normalize].
  - destruct s; lia.
  - destruct s; [nia |].
    apply binary_round_exact; [exact Hv | exact Hez | exact Hval].
  - destruct s; [| nia].
    apply binary_round_exact; [exact Hv | exact Hez |].
    cbn [scaled cond_Zopp] in Hval. lia.
Qed.

Lemma add_opp s m e :
  SF64add (S754_finite (negb s) m e) (S754_finite s m e) = S754_zero false.
Proof.
  unfold SF64add, SFadd. rewrite Z.min_id. unfold shl_align.
  rewrite Z.sub_diag. cbn [fst].
  destruct s; cbn [negb cond_Zopp]; rewrite ?Z.add_opp_diag_l,
    ?Z.add_opp_diag_r; reflexivity.
Qed.

(** Three doubles whose values add up to zero: the sum the code computes,
    left to right, is zero. *)
Lemma add_three_zero A B C :
  valid_binary A = true → valid_binary B = true → valid_binary C = true →
  is_real A = true → is_real B = true → is_real C = true →
  (scaled A + scaled B + scaled C = 0)%Z →
  ∃ s, SF64add (SF64add A B) C = S754_zero s.
Proof.
  intros HA HB HC RA RB RC Hsum.
  destruct C as [sc | sc | | sc mc ec]; try discriminate RC.
  - (* the third is zero: the first two cancel *)
    assert (Hab : ∃ s, SF64add A B = S754_zero s).
    { cbn [scaled] in Hsum.
      destruct A as [sa | sa | | sa ma ea]; try discriminate RA;
        destruct B as [sb | sb | | sb mb eb]; try discriminate RB.
      - destruct sa, sb; eexists; reflexivity.
      - destruct (valid_canonical sb mb eb HB) as [_ He].
        pose proof (scaled_finite_sign sb mb eb ltac:(lia)).
        cbn [scaled] in Hsum. destruct sb; cbn [scaled] in *; lia.
      - destruct (valid_canonical sa ma ea HA) as [_ He].
        pose proof (scaled_finite_sign sa ma ea ltac:(lia)).
        cbn [scaled] in Hsum. destruct sa; cbn [scaled] in *; lia.
      - destruct (valid_canonical sa ma ea HA) as [_ Hea].
        destruct (valid_canonical sb mb eb HB) as [_ Heb].
        destruct (add_finite sa ma ea sb mb eb ltac:(lia) ltac:(lia))
          as (M & -> & HM).
        assert (H2 : (0 < 2 ^ (Z.min ea eb + 1074))%Z)
          by (apply Z.pow_pos_nonneg; lia).
        assert (M = 0%Z) as -> by nia.
        eexists. reflexivity. }
    destruct Hab as [s ->]. destruct s, sc; eexists; reflexivity.
  - (* the third is not zero: the first two add up to its opposite *)
    destruct (valid_canonical sc mc ec HC) as [_ Hec].
    pose proof (scaled_finite_sign sc mc ec ltac:(lia)) as Hsc.
    assert (HT : scaled (S754_finite (negb sc) mc ec)
                 = (- scaled (S754_finite sc mc ec))%Z).
    { destruct sc; cbn [scaled negb cond_Zopp]; lia. }
    assert (Hab : SF64add A B = S754_finite (negb sc) mc ec).
    { destruct A as [sa | sa | | sa ma ea]; try discriminate RA;
        destruct B as [sb | sb | | sb mb eb]; try discriminate RB.
      - cbn [scaled] in Hsum, Hsc. destruct sc; lia.
      - change (SF64add (S754_zero sa) (S754_finite sb mb eb))
          with (S754_finite sb mb eb).
        apply canonical_unique; [exact HB | exact HC |].
        rewrite HT. cbn [scaled] in Hsum |- *. lia.
      - change (SF64add (S754_finite sa ma ea) (S754_zero sb))
          with (S754_finite sa ma ea).
        apply canonical_unique; [exact HA | exact HC |].
        rewrite HT. cbn [scaled] in Hsum |- *. lia.
      - destruct (valid_canonical sa ma ea HA) as [_ Hea].
        destruct (valid_canonical sb mb eb HB) as [_ Heb].
        destruct (add_finite sa ma ea sb mb eb ltac:(lia) ltac:(lia))
          as (M & -> & HM).
        apply normalize_exact; [exact HC | lia |].
        rewrite HM, HT. lia. }
    rewrite Hab, add_opp. eauto.
Qed.

Lemma Prim2SF_three : Prim2SF 3 = S754_finite false 6755399441055744 (-51).
Proof. reflexivity. Qed.

(** The value [exact] gives, as a multiple of 2^-1074. *)
Lemma exact_scaled x q :
  exact x = Some q →
  is_real (Prim2SF x) = true
  ∧ q == inject_Z (scaled (Prim2SF x)) * Qpower 2 (-1074).
Proof.
  unfold exact. pose proof (Prim2SF_valid x) as Hv.
  destruct (Prim2SF x) as [s | s | | s m e]; try discriminate.
  - intros [= <-]. split; [reflexivity |]. cbn [scaled]. ring.
  - intros [= <-]. split; [reflexivity |].
    destruct (valid_canonical s m e Hv) as [_ He].
    cbn [scaled]. rewrite inject_Z_mult, Zpower_Qpower by lia.
    rewrite <- Qmult_assoc, <- Qpower_plus by discriminate.
    replace (e + 1074 + -1074)%Z with e by lia. reflexivity.
Qed.

(** When the three phases add up to zero exactly, the average the engine
    computes is zero. *)
Lemma zero_sum_average a b c qa qb qc :
  exact a = Some qa → exact b = Some qb → exact c = Some qc →
  (qa + qb + qc) / 3 == 0 →
  PyFloat.eq (average a b c) 0 = true.
Proof.
  intros Ha Hb Hc Hsum.
  apply exact_scaled in Ha as [Ra Ha], Hb as [Rb Hb], Hc as [Rc Hc].
  assert (Hz : (scaled (Prim2SF a) + scaled (Prim2SF b) + scaled (Prim2SF c)
                = 0)%Z).
  { assert (H0 : qa + qb + qc == 0).
    { unfold Qdiv in Hsum.
      apply Qmult_integral in Hsum as [H | H]; [exact H |].
      vm_compute in H. discriminate H. }
    rewrite Ha, Hb, Hc, <- !Qmult_plus_distr_l, <- !inject_Z_plus in H0.
    apply Qmult_integral in H0 as [H0 | H0]; [| discriminate H0].
    unfold Qeq in H0. simpl in H0. lia. }
  destruct (add_three_zero _ _ _ (Prim2SF_valid a) (Prim2SF_valid b)
              (Prim2SF_valid c) Ra Rb Rc Hz) as [s Hs].
  unfold PyFloat.eq, average.
  rewrite eqb_spec, div_spec, !add_spec, Prim2SF_three, Prim2SF_zero.
  fold SF64add in Hs |- *. rewrite Hs. now destruct s.
Qed.

(** ** Binary64: NaN, order, and Python's [max] *)

(** Float addition is commutative. *)
Lemma SFadd_comm X Y : SF64add X Y = SF64add Y X.
Proof.
  destruct X as [sx | sx | | sx mx ex], Y as [sy | sy | | sy my ey];
    try (destruct sx, sy; reflexivity); try reflexivity.
  unfold SF64add, SFadd. now rewrite (Z.min_comm ey ex), Z.add_comm.
Qed.

Lemma add_comm a b : (a + b)%float = (b + a)%float.
Proof. apply Prim2SF_inj. rewrite !add_spec. apply SFadd_comm. Qed.

(** Rounding a non-negative integer never gives NaN. *)
Lemma shr_fexp_nonneg m e l :
  (0 ≤ m)%Z → (0 ≤ shr_m (shr_fexp prec emax m e l).1)%Z.
Proof.
  intros Hm. unfold shr_fexp, shr.
  destruct (_ - e)%Z as [| n | n]; cbn [fst]; rewrite ?iter_shr_1_m,
    ?shr_record_of_loc_m; rewrite ?shr_record_of_loc_m; try exact Hm.
  apply Z.div_pos; [exact Hm | lia].
Qed.

Lemma binary_round_aux_not_nan s m e l :
  (0 ≤ m)%Z → binary_round_aux prec emax s m e l ≠ S754_nan.
Proof.
  intros Hm. unfold binary_round_aux.
  pose proof (shr_fexp_nonneg m e l Hm) as H1.
  destruct (shr_fexp prec emax m e l) as [mrs e']. cbn [fst] in H1.
  assert (H2 : (0 ≤ round_nearest_even (shr_m mrs) (loc_of_shr_record mrs))%Z).
  { destruct (loc_of_shr_record mrs) as [| []]; cbn; try lia.
    destruct (Z.even _); lia. }
  pose proof (shr_fexp_nonneg _ e' loc_Exact H2) as H3.
  destruct (shr_fexp prec emax _ e' loc_Exact) as [mrs' e'']. cbn [fst] in H3.
  destruct (shr_m mrs'); [discriminate | | lia].
  now destruct (e'' <=? emax - prec)%Z.
Qed.

Lemma binary_normalize_not_nan M e : binary_normalize prec emax M e false ≠ S754_nan.
Proof.
  destruct M as [| p | p]; cbn [binary_normalize]; [discriminate | |];
    unfold binary_round; destruct (shl_align _ _ _) as [mz ez];
    now apply binary_round_aux_not_nan.
Qed.

Lemma SFdiv_core_nonneg m1 e1 m2 e2 :
  (0 ≤ (SFdiv_core_binary prec emax (Zpos m1) e1 (Zpos m2) e2).1.1)%Z.
Proof.
  unfold SFdiv_core_binary.
  set (s := (_ - _ - _)%Z).
  set (m' := match s with Zpos _ => Z.shiftl (Zpos m1) s | Z0 => Zpos m1 | Zneg _ => 0%Z end).
  assert (Hm' : (0 ≤ m')%Z).
  { unfold m'. destruct s; try lia. apply Z.shiftl_nonneg. lia. }
  pose proof (Z.div_eucl_eq m' (Zpos m2) ltac:(lia)) as Heq.
  pose proof (Z.mod_pos_bound m' (Zpos m2) ltac:(lia)) as Hmod.
  unfold Z.modulo in Hmod.
  destruct (Z.div_eucl m' (Zpos m2)) as [q r]. cbn [fst]. nia.
Qed.

Lemma sub_not_nan X s m e :
  X ≠ S754_nan → SF64sub X (S754_finite s m e) ≠ S754_nan.
Proof.
  destruct X as [sx | sx | | sx mx ex]; intros HX; try contradiction;
    try discriminate.
  apply binary_normalize_not_nan.
Qed.

Lemma div_not_nan X s m e :
  X ≠ S754_nan → SF64div X (S754_finite s m e) ≠ S754_nan.
Proof.
  destruct X as [sx | sx | | sx mx ex]; intros HX; try contradiction;
    try discriminate.
  unfold SF64div, SFdiv.
  pose proof (SFdiv_core_nonneg mx ex m e) as Hq.
  destruct (SFdiv_core_binary _ _ _ _ _ _) as [[mz ez] lz].
  now apply binary_round_aux_not_nan.
Qed.

Lemma abs_not_nan X : X ≠ S754_nan → SFabs X ≠ S754_nan.
Proof. destruct X; intros HX; try contradiction; discriminate. Qed.

Lemma mul_not_nan X s m e :
  X ≠ S754_nan → SF64mul X (S754_finite s m e) ≠ S754_nan.
Proof.
  destruct X as [sx | sx | | sx mx ex]; intros HX; try contradiction;
    try discriminate.
  apply binary_round_aux_not_nan. lia.
Qed.

Lemma Prim2SF_hundred :
  Prim2SF 100 = S754_finite false 7036874417766400 (-46).
Proof. reflexivity. Qed.

Lemma Prim2SF_five : Prim2SF 5 = S754_finite false 5629499534213120 (-50).
Proof. reflexivity. Qed.

Lemma deviation_spec v avg :
  Prim2SF (deviation v avg)
  = SF64mul (SFabs (SF64div (SF64sub (Prim2SF v) (Prim2SF avg)) (Prim2SF avg)))
      (Prim2SF 100).
Proof.
  unfold deviation, PyFloat.abs.
  now rewrite mul_spec, abs_spec, div_spec, sub_spec.
Qed.

(** Around an average that is infinite or NaN every deviation is NaN. *)
Lemma deviation_nan v avg :
  is_real (Prim2SF avg) = false → deviation v avg = nan.
Proof.
  intros Havg. apply Prim2SF_inj. rewrite deviation_spec.
  destruct (Prim2SF avg) as [s | s | | s m e]; try discriminate Havg;
    destruct (Prim2SF v) as [sv | sv | | sv mv ev];
    try (destruct s, sv; reflexivity); reflexivity.
Qed.

(** Around a finite average that is not zero, the deviation of a phase that
    is not NaN is not NaN. *)
Lemma deviation_not_nan v avg s m e :
  Prim2SF avg = S754_finite s m e → Prim2SF v ≠ S754_nan →
  Prim2SF (deviation v avg) ≠ S754_nan.
Proof.
  intros Havg Hv. rewrite deviation_spec, Havg, Prim2SF_hundred.
  now apply mul_not_nan, abs_not_nan, div_not_nan, sub_not_nan.
Qed.

Lemma SFadd_nan_r X : SF64add X S754_nan = S754_nan.
Proof. now destruct X. Qed.

(** A NaN among the phases makes the average NaN. *)
Lemma average_finite a b c s m e :
  Prim2SF (average a b c) = S754_finite s m e →
  Prim2SF a ≠ S754_nan ∧ Prim2SF b ≠ S754_nan ∧ Prim2SF c ≠ S754_nan.
Proof.
  unfold average. rewrite div_spec, !add_spec. intros H.
  repeat split; intros Hnan; rewrite Hnan in H;
    rewrite ?SFadd_nan_r in H; discriminate H.
Qed.

(** The three deviations are NaN together or not at all. *)
Lemma deviations_nan a b c :
  PyFloat.eq (average a b c) 0 = false →
  (deviation a (average a b c) = nan ∧ deviation b (average a b c) = nan
   ∧ deviation c (average a b c) = nan)
  ∨ (Prim2SF (deviation a (average a b c)) ≠ S754_nan
     ∧ Prim2SF (deviation b (average a b c)) ≠ S754_nan
     ∧ Prim2SF (deviation c (average a b c)) ≠ S754_nan).
Proof.
  intros Hnz.
  destruct (Prim2SF (average a b c)) as [s | s | | s m e] eqn:Havg.
  - unfold PyFloat.eq in Hnz. rewrite eqb_spec, Havg in Hnz. discriminate Hnz.
  - left. repeat split; apply deviation_nan; now rewrite Havg.
  - left. repeat split; apply deviation_nan; now rewrite Havg.
  - right. destruct (average_finite a b c s m e Havg) as (Ha & Hb & Hc).
    repeat split; eapply deviation_not_nan; eassumption.
Qed.

Ltac compare_cases :=
  rewrite ?pos_compare_Z in *;
  repeat match goal with
         | H : context [Z.compare ?a ?b] |- _ =>
             destruct (Z.compare_spec a b); try discriminate H
         | |- context [Z.compare ?a ?b] =>
             destruct (Z.compare_spec a b)
         end;
  try reflexivity; try discriminate; try lia.

(** Order against a positive number: [<] is transitive, and what is not
    below a number above the bound is above it too. *)
Lemma ltb_trans_pos mf ef X Y :
  SFltb (S754_finite false mf ef) X = true → SFltb X Y = true →
  SFltb (S754_finite false mf ef) Y = true.
Proof.
  unfold SFltb, SFcompare.
  destruct X as [sx | sx | | sx mx ex], Y as [sy | sy | | sy my ey];
    try destruct sx; try destruct sy; intros H1 H2;
    try discriminate H1; try discriminate H2; try reflexivity;
    compare_cases.
Qed.

Lemma ltb_le_pos mf ef X Y :
  SFltb (S754_finite false mf ef) Y = true → SFltb X Y = false →
  X ≠ S754_nan → SFltb (S754_finite false mf ef) X = true.
Proof.
  unfold SFltb, SFcompare.
  destruct X as [sx | sx | | sx mx ex], Y as [sy | sy | | sy my ey];
    try destruct sx; try destruct sy; intros H1 H2 HX;
    try contradiction; try discriminate H1; try discriminate H2;
    try reflexivity; compare_cases.
Qed.

(** Python's [max] of values that are not NaN is above 5 exactly when one
    of them is. *)
Lemma gt_max2 a b :
  Prim2SF a ≠ S754_nan → Prim2SF b ≠ S754_nan →
  PyFloat.gt (PyFloat.max2 a b) 5 = PyFloat.gt a 5 || PyFloat.gt b 5.
Proof.
  intros Ha Hb. unfold PyFloat.max2.
  destruct (PyFloat.gt b a) eqn:Hba.
  - destruct (PyFloat.gt a 5) eqn:Ha5; [| reflexivity].
    unfold PyFloat.gt in *. rewrite ltb_spec, Prim2SF_five in *.
    cbn [orb]. now apply ltb_trans_pos with (Prim2SF a).
  - destruct (PyFloat.gt b 5) eqn:Hb5; [| now rewrite orb_false_r].
    rewrite orb_true_r.
    unfold PyFloat.gt in *. rewrite ltb_spec, Prim2SF_five in *.
    now apply ltb_le_pos with (Prim2SF b).
Qed.

Lemma gt_max3 a b c :
  Prim2SF a ≠ S754_nan → Prim2SF b ≠ S754_nan → Prim2SF c ≠ S754_nan →
  PyFloat.gt (PyFloat.max3 a b c) 5
  = PyFloat.gt a 5 || PyFloat.gt b 5 || PyFloat.gt c 5.
Proof.
  intros Ha Hb Hc. unfold PyFloat.max3.
  rewrite gt_max2, gt_max2; try assumption; [reflexivity |].
  unfold PyFloat.max2. now destruct (PyFloat.gt b a).
Qed.

Lemma gt_nan : PyFloat.gt nan 5 = false.
Proof. reflexivity. Qed.

(** The largest deviation is above 5 exactly when one of the three is:
    Python's [max] keeps a NaN in first place, but the deviations are NaN
    together or not at all. *)
Lemma gt_largest_deviation a b c :
  PyFloat.eq (average a b c) 0 = false →
  PyFloat.gt (PyFloat.max3 (deviation a (average a b c))
                           (deviation b (average a b c))
                           (deviation c (average a b c))) 5
  = PyFloat.gt (deviation a (average a b c)) 5
    || PyFloat.gt (deviation b (average a b c)) 5
    || PyFloat.gt (deviation c (average a b c)) 5.
Proof.
  intros Hnz.
  destruct (deviations_nan a b c Hnz) as [(-> & -> & ->) | (Ha & Hb & Hc)];
    [reflexivity | now apply gt_max3].
Qed.

(** ** Binary64: a change of sign *)

Lemma binary_round_aux_opp s m e l :
  binary_round_aux prec emax (negb s) m e l
  = SFopp (binary_round_aux prec emax s m e l).
Proof.
  unfold binary_round_aux.
  destruct (shr_fexp prec emax m e l) as [mrs e'].
  destruct (shr_fexp prec emax _ e' loc_Exact) as [mrs' e''].
  destruct (shr_m mrs'); [reflexivity | | reflexivity].
  now destruct (e'' <=? emax - prec)%Z.
Qed.

Lemma binary_round_opp s p e :
  binary_round prec emax (negb s) p e = SFopp (binary_round prec emax s p e).
Proof.
  unfold binary_round. destruct (shl_align _ _ _) as [mz ez].
  apply binary_round_aux_opp.
Qed.

Lemma binary_normalize_opp M e :
  unsigned_zero (binary_normalize prec emax (- M) e false)
  = unsigned_zero (SFopp (binary_normalize prec emax M e false)).
Proof.
  destruct M as [| p | p]; cbn [Z.opp binary_normalize]; [reflexivity | |].
  - now rewrite <- (binary_round_opp false).
  - now rewrite <- (binary_round_opp true).
Qed.

Lemma add_opp_opp A B :
  unsigned_zero (SF64add (SFopp A) (SFopp B))
  = unsigned_zero (SFopp (SF64add A B)).
Proof.
  destruct A as [sa | sa | | sa ma ea], B as [sb | sb | | sb mb eb];
    try (destruct sa, sb; reflexivity); try (destruct sa; reflexivity);
    try (destruct sb; reflexivity); try reflexivity.
  unfold SF64add. cbn [SFopp SFadd].
  rewrite <- binary_normalize_opp. do 2 f_equal.
  destruct sa, sb; cbn [negb cond_Zopp]; lia.
Qed.

Lemma sub_opp_opp A B :
  unsigned_zero (SF64sub (SFopp A) (SFopp B))
  = unsigned_zero (SFopp (SF64sub A B)).
Proof.
  destruct A as [sa | sa | | sa ma ea], B as [sb | sb | | sb mb eb];
    try (destruct sa, sb; reflexivity); try (destruct sa; reflexivity);
    try (destruct sb; reflexivity); try reflexivity.
  unfold SF64sub. cbn [SFopp SFsub].
  rewrite <- binary_normalize_opp. do 2 f_equal.
  destruct sa, sb; cbn [negb cond_Zopp]; lia.
Qed.

Lemma add_unsigned_zero X X' C :
  unsigned_zero X = unsigned_zero X' →
  unsigned_zero (SF64add X C) = unsigned_zero (SF64add X' C).
Proof.
  destruct X as [s | s | | s m e], X' as [s' | s' | | s' m' e'];
    cbn [unsigned_zero]; intros H; try discriminate H;
    try (injection H as <-; reflexivity);
    try (injection H as <- <- <-; reflexivity); try reflexivity.
  destruct C as [sc | sc | | sc mc ec]; try reflexivity.
  destruct s, s', sc; reflexivity.
Qed.

Lemma div_opp_l X Y :
  SF64div (SFopp X) Y = SFopp (SF64div X Y).
Proof.
  destruct X as [sx | sx | | sx mx ex], Y as [sy | sy | | sy my ey];
    try (destruct sx, sy; reflexivity); try reflexivity.
  unfold SF64div. cbn [SFopp SFdiv].
  destruct (SFdiv_core_binary _ _ _ _ _ _) as [[mz ez] lz].
  rewrite <- binary_round_aux_opp. now destruct sx, sy.
Qed.

Lemma div_opp_opp X Y :
  SF64div (SFopp X) (SFopp Y) = SF64div X Y.
Proof.
  destruct X as [sx | sx | | sx mx ex], Y as [sy | sy | | sy my ey];
    try (destruct sx, sy; reflexivity); reflexivity.
Qed.

Lemma div_unsigned_zero X X' Y :
  unsigned_zero X = unsigned_zero X' →
  unsigned_zero (SF64div X Y) = unsigned_zero (SF64div X' Y).
Proof.
  destruct X as [s | s | | s m e], X' as [s' | s' | | s' m' e'];
    cbn [unsigned_zero]; intros H; try discriminate H;
    try (injection H as <-; reflexivity);
    try (injection H as <- <- <-; reflexivity); try reflexivity.
  destruct Y as [sy | sy | | sy my ey]; reflexivity.
Qed.

Lemma abs_unsigned_zero X X' :
  unsigned_zero X = unsigned_zero X' → SFabs X = SFabs X'.
Proof.
  destruct X as [s | s | | s m e], X' as [s' | s' | | s' m' e'];
    cbn [unsigned_zero]; intros H; try discriminate H;
    try (injection H as <-; reflexivity);
    try (injection H as <- <- <-; reflexivity); reflexivity.
Qed.

Lemma eqb_zero_unsigned_zero X X' :
  unsigned_zero X = unsigned_zero X' →
  SFeqb X (S754_zero false) = SFeqb X' (S754_zero false).
Proof.
  destruct X as [s | s | | s m e], X' as [s' | s' | | s' m' e'];
    cbn [unsigned_zero]; intros H; try discriminate H;
    try (injection H as <-; reflexivity);
    try (injection H as <- <- <-; reflexivity); reflexivity.
Qed.

Lemma eqb_zero_opp X :
  SFeqb (SFopp X) (S754_zero false) = SFeqb X (S754_zero false).
Proof. destruct X as [s | s | | s m e]; try destruct s; reflexivity. Qed.

Lemma unsigned_zero_inj X X' :
  unsigned_zero X = unsigned_zero X' →
  SFeqb X (S754_zero false) = false → X = X'.
Proof.
  destruct X as [s | s | | s m e], X' as [s' | s' | | s' m' e'];
    cbn [unsigned_zero]; intros H; try discriminate H;
    try (intros _; exact H). discriminate.
Qed.

(** The average of the negated phases is the negated average, up to the
    sign of a zero. *)
Lemma average_opp a b c :
  unsigned_zero (Prim2SF (average (- a) (- b) (- c)))
  = unsigned_zero (SFopp (Prim2SF (average a b c))).
Proof.
  unfold average. rewrite !div_spec, !add_spec, !opp_spec.
  rewrite <- div_opp_l. apply div_unsigned_zero.
  rewrite <- add_opp_opp. apply add_unsigned_zero, add_opp_opp.
Qed.

Lemma deviation_opp v avg : deviation (- v) (- avg) = deviation v avg.
Proof.
  unfold deviation, PyFloat.abs. f_equal. apply Prim2SF_inj.
  rewrite !abs_spec, !div_spec, !sub_spec, !opp_spec.
  apply abs_unsigned_zero.
  rewrite <- (div_opp_opp (SF64sub _ _) (Prim2SF avg)).
  apply div_unsigned_zero, sub_opp_opp.
Qed.

(** ** Binary64: products with one and with zero *)

(** Multiplying by one changes nothing. *)
Lemma mul_one x : (x * 1)%float = x.
Proof.
  apply Prim2SF_inj. rewrite mul_spec, Prim2SF_one.
  pose proof (Prim2SF_valid x) as Hv. unfold SF64mul.
  destruct (Prim2SF x) as [s | s | | s m e]; cbn [SFmul];
    rewrite ?xorb_false_r; try reflexivity.
  transitivity (binary_round_aux prec emax s (Zpos m) e loc_Exact);
    [| now apply binary_round_aux_canonical].
  unfold binary_round_aux.
  rewrite (shr_fexp_exact s (m * 4503599627370496) (e + -52) m e Hv),
    (shr_fexp_canonical s m e Hv); [reflexivity | lia |].
  rewrite Pos2Z.inj_mul. f_equal.
  replace (e - (e + -52))%Z with 52%Z by lia. reflexivity.
Qed.

Lemma Prim2SF_nan : Prim2SF nan = S754_nan.
Proof. reflexivity. Qed.

Lemma SFcompare_refl X : X ≠ S754_nan → SFcompare X X = Some Eq.
Proof.
  destruct X as [s | s | | s m e]; intros H; try contradiction; cbn.
  - reflexivity.
  - now destruct s.
  - rewrite Z.compare_refl, pos_compare_Z, Z.compare_refl. now destruct s.
Qed.

Lemma is_finite_spec x : is_finite x = is_real (Prim2SF x).
Proof.
  unfold is_finite, is_nan.
  destruct (is_infinity x) eqn:Hinf.
  - apply is_infinity_spec in Hinf as [s Hs]. rewrite Hs, orb_true_r.
    reflexivity.
  - rewrite orb_false_r, negb_involutive, eqb_spec. unfold SFeqb.
    destruct (Prim2SF x) as [s | s | | s m e] eqn:Hx.
    + reflexivity.
    + assert (is_infinity x = true) by (apply is_infinity_spec; eauto).
      congruence.
    + reflexivity.
    + now rewrite SFcompare_refl.
Qed.

(** A product with zero: zero for a finite factor, NaN otherwise. *)
Lemma mul_zero x :
  (is_finite x = true → (x * 0 =? 0)%float = true)
  ∧ (is_finite x = false → (x * 0)%float = nan).
Proof.
  rewrite is_finite_spec, eqb_spec, mul_spec, Prim2SF_zero. split.
  - destruct (Prim2SF x) as [s | s | | s m e]; try discriminate; reflexivity.
  - intros Hx. apply Prim2SF_inj. rewrite mul_spec, Prim2SF_zero, Prim2SF_nan.
    destruct (Prim2SF x) as [s | s | | s m e]; try discriminate; reflexivity.
Qed.

(** ** The shape of what [diagnose] returns *)

(** The division guard: [_check_phase_imbalance] always returns, and
    [imbalance] is what it returns. *)
Lemma check_phase_imbalance_returns va vb vc :
  _check_phase_imbalance va vb vc = Ok (imbalance va vb vc).
Proof.
  unfold _check_phase_imbalance, imbalance, average, deviation.
  rewrite (truediv_nonzero _ 3) by reflexivity. cbn [mbind result_bind].
  destruct (PyFloat.eq ((va + vb + vc) / 3) 0) eqn:Havg; [reflexivity |].
  rewrite !truediv_nonzero by exact Havg. cbn [mbind result_bind].
  now destruct (PyFloat.gt _ PHASE_IMBALANCE_MAX).
Qed.

Lemma diagnose_returns r :
  ∃ res, diagnose r = Ok res
    ∧ all_faults res = map value (triggered r)
    ∧ primary_fault res = value (default NONE (head (triggered r)))
    ∧ severity res = _calculate_severity r (triggered r)
    ∧ confidence res = _calculate_confidence r
    ∧ action res = _recommend_action (default NONE (head (triggered r))).
Proof.
  unfold diagnose. rewrite check_phase_imbalance_returns.
  unfold triggered, checks. simpl.
  destruct (_check_voltage _), (_check_current _), (_check_frequency _),
    (_check_power_factor _), (imbalance _ _ _), (_check_temperature _);
    simpl; eexists; (split; [reflexivity |]); simpl; auto.
Qed.

(** ** Severity *)

Lemma table_lookup_value f : table_lookup priority_table (value f) = severity_map f.
Proof. now destruct f. Qed.

Lemma first_in_table_value faults :
  first_in_table (map value faults) = severity_scan faults.
Proof.
  induction faults as [| f faults IH]; [reflexivity |].
  cbn [map first_in_table severity_scan]. rewrite table_lookup_value.
  now destruct (severity_map f).
Qed.

Lemma calculate_severity_by_entries r faults :
  NONE ∉ faults →
  _calculate_severity r faults = severity_by_entries (map value faults).
Proof.
  intros Hnone. unfold _calculate_severity, severity_by_entries.
  destruct faults as [| f faults]; [reflexivity |].
  rewrite (bool_decide_eq_false_2 (NONE ∈ f :: faults)) by exact Hnone.
  rewrite length_map, first_in_table_value. reflexivity.
Qed.

(** No check of the table yields the member [NONE]. *)
Lemma triggered_not_NONE r : NONE ∉ triggered r.
Proof.
  unfold triggered, checks, _check_voltage, _check_current, _check_frequency,
    _check_power_factor, imbalance, _check_temperature.
  repeat match goal with
         | |- context [if ?b then _ else _] => destruct b
         end;
    cbn; rewrite ?elem_of_cons, elem_of_nil; intuition discriminate.
Qed.

(** C1, as amended: the severity of the result is ["None"] for an empty
    [all_faults], ["Critical"] when [all_faults] has three or more entries
    (repeated names counted), and otherwise the severity of the first entry
    found in the priority table, ["Medium"] when none is. *)
Theorem severity_counts_entries r :
  ∃ res, diagnose r = Ok res
    ∧ severity res = severity_by_entries (all_faults res).
Proof.
  destruct (diagnose_returns r) as (res & Hres & Hfaults & _ & Hsev & _).
  exists res. split; [exact Hres |].
  rewrite Hsev, Hfaults. apply calculate_severity_by_entries, triggered_not_NONE.
Qed.

(** C1, as stated, fails: with overvoltage, overcurrent and overtemperature
    the list is [Overvoltage; Overcurrent; Overcurrent], two distinct faults,
    and the severity is ["Critical"], not the table's ["High"]. *)
Lemma severity_by_distinct_refuted :
  ¬ ∀ r res, diagnose r = Ok res →
      severity res = severity_by_distinct (all_faults res).
Proof.
  intros H.
  specialize (H (mkReading 260 35 50 0.95 230 230 230 90) _ eq_refl).
  vm_compute in H. discriminate H.
Qed.

(** ** Nominal readings *)

Lemma imbalance_within va vb vc :
  let avg := average va vb vc in
  phase_within va avg → phase_within vb avg → phase_within vc avg →
  imbalance va vb vc = None.
Proof.
  intros avg Ha Hb Hc. unfold imbalance. fold avg.
  destruct (PyFloat.eq avg 0); [reflexivity |].
  unfold phase_within in Ha, Hb, Hc.
  destruct (max3_cases (deviation va avg) (deviation vb avg)
              (deviation vc avg)) as [-> | [-> | ->]];
    [now rewrite Ha | now rewrite Hb | now rewrite Hc].
Qed.

(** C2, as amended: a reading with voltage, current, frequency, power
    factor and temperature inside their bands, and with each phase within 5
    percent of the average as the engine computes it in double arithmetic
    (the average [(a + b + c) / 3] and the deviation
    [abs((phase - avg) / avg) * 100], each operation rounded, the deviation
    not above 5), triggers nothing: the primary fault is ["No Fault"], the
    severity ["None"] and [all_faults] is empty. *)
Theorem nominal_reading_no_fault r :
  200 <= voltage r <= 250 →
  current r <= 30 →
  48 <= frequency r <= 52 →
  0.85 <= power_factor r →
  phase_within (phase_a r) (phase_average r) →
  phase_within (phase_b r) (phase_average r) →
  phase_within (phase_c r) (phase_average r) →
  temperature r <= 80 →
  ∃ res, diagnose r = Ok res
    ∧ primary_fault res = "No Fault"
    ∧ severity res = "None"
    ∧ all_faults res = [].
Proof.
  intros [Hv1 Hv2] Hc [Hf1 Hf2] Hpf Ha Hb Hc' Ht.
  destruct (diagnose_returns r) as (res & Hres & Hfaults & Hprim & Hsev & _).
  assert (Hnone : triggered r = []).
  { unfold triggered, checks, _check_voltage, _check_current,
      _check_frequency, _check_power_factor, _check_temperature.
    rewrite (imbalance_within _ _ _ Ha Hb Hc').
    rewrite (proj2 (gt_false (voltage r) VOLTAGE_MAX)) by exact Hv2.
    rewrite (proj2 (lt_false (voltage r) VOLTAGE_MIN)) by exact Hv1.
    rewrite (proj2 (gt_false (current r) CURRENT_MAX)) by exact Hc.
    rewrite (proj2 (lt_false (frequency r) FREQUENCY_MIN)) by exact Hf1.
    rewrite (proj2 (gt_false (frequency r) FREQUENCY_MAX)) by exact Hf2.
    rewrite (proj2 (lt_false (power_factor r) POWER_FACTOR_MIN)) by exact Hpf.
    rewrite (proj2 (gt_false (temperature r) TEMPERATURE_MAX)) by exact Ht.
    reflexivity. }
  rewrite Hnone in Hfaults, Hprim, Hsev.
  exists res. repeat split; assumption.
Qed.

Lemma nominal_reading_no_fault_witness :
  ∃ res, diagnose create_sample_reading = Ok res
    ∧ primary_fault res = "No Fault"
    ∧ severity res = "None"
    ∧ all_faults res = [].
Proof.
  apply (nominal_reading_no_fault create_sample_reading);
    unfold phase_within; vm_compute; intuition discriminate.
Defined.

(** C2, as stated, fails: the phases 235.6, 248.0 and 260.4 are doubles
    that lie within 5 percent of their exact average, and the other
    quantities are nominal, yet the engine computes a deviation of
    5.0000000000000027 for the first phase and reports ["Phase
    Imbalance"]. *)
Lemma nominal_boundary_reading_faults :
  ¬ ∀ r a b c,
      200 <= voltage r <= 250 →
      current r <= 30 →
      48 <= frequency r <= 52 →
      0.85 <= power_factor r →
      exact (phase_a r) = Some a →
      exact (phase_b r) = Some b →
      exact (phase_c r) = Some c →
      within_percent 5 a ((a + b + c) / 3) →
      within_percent 5 b ((a + b + c) / 3) →
      within_percent 5 c ((a + b + c) / 3) →
      temperature r <= 80 →
      ∃ res, diagnose r = Ok res
        ∧ primary_fault res = "No Fault"
        ∧ severity res = "None"
        ∧ all_faults res = [].
Proof.
  intros H.
  edestruct (H (mkReading 230 15 50 0.95 235.6 248.0 260.4 40))
    as (res & Hres & Hprim & _).
  1-4: vm_compute; intuition discriminate.
  1-3: vm_compute; reflexivity.
  1-4: vm_compute; intuition discriminate.
  vm_compute in Hres. injection Hres as <-. discriminate Hprim.
Qed.

(** ** Order of the checks *)

Lemma primary_is_head faults :
  value (default NONE (head faults)) = default "No Fault" (head (map value faults)).
Proof. now destruct faults. Qed.

(** C4: the faults are listed in the order voltage, current, frequency,
    power factor, phase imbalance, temperature; the primary fault is the
    head of the list, ["No Fault"] for the empty list; and a temperature
    above 80 makes the last check yield [OVERCURRENT], so that the list ends
    with ["Overcurrent"]. *)
Theorem faults_in_check_order r :
  ∃ res imb,
    diagnose r = Ok res
    ∧ _check_phase_imbalance (phase_a r) (phase_b r) (phase_c r) = Ok imb
    ∧ all_faults res =
        map value
          (omap (λ fault, fault)
             [ _check_voltage (voltage r);
               _check_current (current r);
               _check_frequency (frequency r);
               _check_power_factor (power_factor r);
               imb;
               _check_temperature (temperature r) ])
    ∧ primary_fault res = default "No Fault" (head (all_faults res))
    ∧ (80 < temperature r →
         _check_temperature (temperature r) = Some OVERCURRENT
         ∧ last (all_faults res) = Some "Overcurrent").
Proof.
  destruct (diagnose_returns r) as (res & Hres & Hfaults & Hprim & _).
  exists res, (imbalance (phase_a r) (phase_b r) (phase_c r)).
  split; [exact Hres |].
  split; [apply check_phase_imbalance_returns |].
  split; [exact Hfaults |].
  split; [rewrite Hprim, Hfaults; apply primary_is_head |].
  intros Hhot.
  assert (Htemp : _check_temperature (temperature r) = Some OVERCURRENT).
  { unfold _check_temperature.
    now rewrite (proj2 (gt_true (temperature r) TEMPERATURE_MAX)) by exact Hhot. }
  split; [exact Htemp |].
  rewrite Hfaults. unfold triggered, checks. rewrite Htemp.
  destruct (_check_voltage _), (_check_current _), (_check_frequency _),
    (_check_power_factor _), (imbalance _ _ _); reflexivity.
Qed.

Lemma faults_in_check_order_witness :
  _check_temperature 90 = Some OVERCURRENT
  ∧ diagnose (mkReading 230 15 50 0.95 230 230 230 90)
    = Ok {| primary_fault := "Overcurrent";
            all_faults := ["Overcurrent"];
            severity := "High";
            confidence := 100;
            details := [DetailTemperature 90];
            action :=
              "Reduce load or check for short circuits. Verify circuit breaker rating." |}.
Proof.
  destruct (faults_in_check_order (mkReading 230 15 50 0.95 230 230 230 90))
    as (res & imb & Hres & _ & _ & _ & Hhot).
  destruct Hhot as [Htemp _]; [reflexivity |].
  split; [exact Htemp | reflexivity].
Defined.

(** ** Totality *)

(** C5: [diagnose] returns a result for every reading; when the average of
    the three phase voltages is zero the imbalance check returns no fault,
    although dividing by that average would raise.  The average is the one
    the engine computes, and it is zero whenever the three voltages add up
    to zero exactly. *)
Theorem diagnose_never_raises r :
  (∃ res, diagnose r = Ok res)
  ∧ (PyFloat.eq (phase_average r) 0 = true →
       _check_phase_imbalance (phase_a r) (phase_b r) (phase_c r) = Ok None
       ∧ PyFloat.truediv (phase_a r - phase_average r)%float (phase_average r)
         = Raise ZeroDivisionError)
  ∧ (∀ a b c,
       exact (phase_a r) = Some a → exact (phase_b r) = Some b →
       exact (phase_c r) = Some c → (a + b + c) / 3 == 0 →
       PyFloat.eq (phase_average r) 0 = true).
Proof.
  split; [| split].
  - destruct (diagnose_returns r) as (res & Hres & _). now exists res.
  - intros Havg. split.
    + rewrite check_phase_imbalance_returns. unfold imbalance.
      unfold phase_average in Havg. now rewrite Havg.
    + now apply truediv_zero.
  - intros a b c Ha Hb Hc Hsum. unfold phase_average.
    exact (zero_sum_average _ _ _ a b c Ha Hb Hc Hsum).
Qed.

Lemma diagnose_never_raises_witness :
  _check_phase_imbalance 230 (-230) 0 = Ok None
  ∧ PyFloat.truediv (230 - 0)%float 0 = Raise ZeroDivisionError
  ∧ PyFloat.eq (average 230.5 (-115.25) (-115.25)) 0 = true.
Proof.
  pose proof (diagnose_never_raises (mkReading 230 15 50 0.95 230 (-230) 0 40))
    as (_ & Hguard & _).
  pose proof (diagnose_never_raises
                (mkReading 230 15 50 0.95 230.5 (-115.25) (-115.25) 40))
    as (_ & _ & Hexact).
  destruct Hguard as [Hskip Hdiv]; [reflexivity |].
  split; [exact Hskip |]. split; [exact Hdiv |].
  eapply Hexact; vm_compute; reflexivity.
Defined.

(** ** Confidence *)

Lemma gt_exceeds x bound bound' :
  bound == bound' → Py.gt x bound = exceeds x bound'.
Proof.
  intros Heq. unfold exceeds.
  destruct (Qlt_le_dec bound' x) as [Hlt | Hle].
  - apply gt_true. now rewrite Heq.
  - apply gt_false. now rewrite Heq.
Qed.

Lemma lt_below x bound bound' :
  bound == bound' → Py.lt x bound = below x bound'.
Proof.
  intros Heq. unfold below.
  destruct (Qlt_le_dec x bound') as [Hlt | Hle].
  - apply lt_true. now rewrite Heq.
  - apply lt_false. now rewrite Heq.
Qed.

Lemma calculate_confidence_formula r :
  _calculate_confidence r
  = confidence_formula (voltage r) (current r) (power_factor r).
Proof.
  unfold _calculate_confidence, confidence_before_clamp, confidence_formula.
  rewrite (gt_exceeds (voltage r) (VOLTAGE_MAX * 1.5) 375) by reflexivity.
  rewrite (lt_below (voltage r) (VOLTAGE_MIN * 0.5) 100) by reflexivity.
  rewrite (gt_exceeds (current r) (CURRENT_MAX * 1.5) 45) by reflexivity.
  rewrite (lt_below (power_factor r) 0.7 0.7) by reflexivity.
  destruct (exceeds (voltage r) 375 || below (voltage r) 100),
    (exceeds (current r) 45), (below (power_factor r) 0.7); reflexivity.
Qed.

(** The value handed to the clamp is one of eight, all between 65 and 100. *)
Lemma confidence_before_clamp_range r :
  65 <= confidence_before_clamp r <= 100.
Proof.
  unfold confidence_before_clamp.
  destruct (Py.gt (voltage r) _ || Py.lt (voltage r) _),
    (Py.gt (current r) _), (Py.lt (power_factor r) _);
    split; discriminate.
Qed.

Lemma clamp_inactive r : _calculate_confidence r = confidence_before_clamp r.
Proof.
  unfold _calculate_confidence, confidence_before_clamp.
  destruct (Py.gt (voltage r) _ || Py.lt (voltage r) _),
    (Py.gt (current r) _), (Py.lt (power_factor r) _); reflexivity.
Qed.

Lemma exceeds_proper x x' bound : x == x' → exceeds x bound = exceeds x' bound.
Proof.
  intros Heq. unfold exceeds.
  destruct (Qlt_le_dec bound x) as [H | H], (Qlt_le_dec bound x') as [H' | H'];
    try reflexivity; exfalso; rewrite Heq in H;
    exact (Qlt_not_le _ _ ltac:(eassumption) ltac:(eassumption)).
Qed.

Lemma below_proper x x' bound : x == x' → below x bound = below x' bound.
Proof.
  intros Heq. unfold below.
  destruct (Qlt_le_dec x bound) as [H | H], (Qlt_le_dec x' bound) as [H' | H'];
    try reflexivity; exfalso; rewrite Heq in H;
    exact (Qlt_not_le _ _ ltac:(eassumption) ltac:(eassumption)).
Qed.

(** C6: the confidence is 100 less 10 for a voltage above 375 or below 100,
    less 10 for a current above 45, less 15 for a power factor below 0.7,
    clamped to [0, 100]; two readings that agree on voltage, current and
    power factor get the same confidence, whatever else they trigger. *)
Theorem confidence_from_three_fields r :
  ∃ res, diagnose r = Ok res
    ∧ confidence res
      = confidence_formula (voltage r) (current r) (power_factor r)
    ∧ ∀ r' res',
        voltage r' == voltage r → current r' == current r →
        power_factor r' == power_factor r →
        diagnose r' = Ok res' → confidence res' = confidence res.
Proof.
  destruct (diagnose_returns r) as (res & Hres & _ & _ & _ & Hconf & _).
  exists res. split; [exact Hres |].
  split; [rewrite Hconf; apply calculate_confidence_formula |].
  intros r' res' Hv Hc Hpf Hres'.
  destruct (diagnose_returns r') as (res'' & Hres'' & _ & _ & _ & Hconf' & _).
  rewrite Hres' in Hres''. injection Hres'' as <-.
  rewrite Hconf, Hconf', !calculate_confidence_formula.
  unfold confidence_formula.
  rewrite (exceeds_proper _ _ 375 Hv), (below_proper _ _ 100 Hv),
    (exceeds_proper _ _ 45 Hc), (below_proper _ _ 0.7 Hpf).
  reflexivity.
Qed.

Lemma confidence_from_three_fields_witness :
  ∃ res, diagnose (mkReading 400 15 50 0.95 230 230 230 40) = Ok res
    ∧ confidence res = 90
    ∧ ∀ res', diagnose (mkReading 400.0 15 47 0.95 200 230 260 95) = Ok res' →
        confidence res' = confidence res.
Proof.
  destruct (confidence_from_three_fields (mkReading 400 15 50 0.95 230 230 230 40))
    as (res & Hres & Hconf & Hsame).
  exists res. split; [exact Hres |]. split; [exact Hconf |].
  intros res'. apply Hsame; reflexivity.
Defined.

(** C10: the confidence is between 65 and 100, and neither clamp changes the
    value the deductions leave. *)
Theorem confidence_at_least_65 r :
  ∃ res, diagnose r = Ok res
    ∧ 65 <= confidence res <= 100
    ∧ confidence res = confidence_before_clamp r.
Proof.
  destruct (diagnose_returns r) as (res & Hres & _ & _ & _ & Hconf & _).
  exists res. split; [exact Hres |].
  rewrite Hconf, clamp_inactive.
  split; [apply confidence_before_clamp_range | reflexivity].
Qed.

(** ** A worked reading *)

(** C7: voltage 260 with everything else nominal is diagnosed as
    ["Overvoltage"], severity ["High"], confidence 100, and the only entry
    of [all_faults] is ["Overvoltage"]. *)
Theorem overvoltage_example :
  diagnose (mkReading 260 15 50 0.95 230 230 230 40)
  = Ok {| primary_fault := "Overvoltage";
          all_faults := ["Overvoltage"];
          severity := "High";
          confidence := 100;
          details := [DetailVoltage 260];
          action := "Check voltage regulator and power supply settings." |}.
Proof. reflexivity. Qed.

(** ** Repeated entries *)

Lemma check_voltage_cases v :
  _check_voltage v = None ∨ _check_voltage v = Some OVERVOLTAGE
  ∨ _check_voltage v = Some UNDERVOLTAGE.
Proof.
  unfold _check_voltage.
  destruct (Py.gt v VOLTAGE_MAX); [auto |]. destruct (Py.lt v VOLTAGE_MIN); auto.
Qed.

Lemma check_frequency_cases f :
  _check_frequency f = None ∨ _check_frequency f = Some HARMONIC_DISTORTION.
Proof. unfold _check_frequency. destruct (_ || _); auto. Qed.

Lemma check_power_factor_cases pf :
  _check_power_factor pf = None ∨ _check_power_factor pf = Some POWER_FACTOR_LOW.
Proof. unfold _check_power_factor. destruct (Py.lt pf _); auto. Qed.

Lemma imbalance_cases va vb vc :
  imbalance va vb vc = None ∨ imbalance va vb vc = Some PHASE_IMBALANCE.
Proof.
  unfold imbalance. destruct (PyFloat.eq _ 0); [auto |].
  destruct (PyFloat.gt _ PHASE_IMBALANCE_MAX); auto.
Qed.

(** C9: with current above 30 and temperature above 80 the name
    ["Overcurrent"] occurs twice in [all_faults], so the list has a repeated
    entry, and the severity is ["Critical"] exactly when the list has three
    or more entries; a reading with two distinct fault names is rated
    ["Critical"] that way. *)
Theorem overcurrent_listed_twice :
  (∀ r, 30 < current r → 80 < temperature r →
     ∃ res, diagnose r = Ok res
       ∧ occurrences "Overcurrent" (all_faults res) = 2%nat
       ∧ ¬ NoDup (all_faults res)
       ∧ severity res
         = if (3 <=? length (all_faults res))%nat then "Critical" else "High")
  ∧ (∃ r res, diagnose r = Ok res
       ∧ length (remove_dups (all_faults res)) = 2%nat
       ∧ severity res = "Critical").
Proof.
  split.
  - intros r Hcur Hhot.
    destruct (diagnose_returns r) as (res & Hres & Hfaults & _ & Hsev & _).
    exists res. split; [exact Hres |].
    rewrite Hsev, Hfaults. unfold triggered, checks.
    unfold _check_current, _check_temperature.
    rewrite (proj2 (gt_true (current r) CURRENT_MAX)) by exact Hcur.
    rewrite (proj2 (gt_true (temperature r) TEMPERATURE_MAX)) by exact Hhot.
    destruct (check_voltage_cases (voltage r)) as [-> | [-> | ->]],
      (check_frequency_cases (frequency r)) as [-> | ->],
      (check_power_factor_cases (power_factor r)) as [-> | ->],
      (imbalance_cases (phase_a r) (phase_b r) (phase_c r)) as [-> | ->];
      (split; [reflexivity |]);
      (split; [apply (@bool_decide_eq_false_1 _ (NoDup_dec _)); reflexivity | reflexivity]).
  - exists (mkReading 260 35 50 0.95 230 230 230 90). eexists.
    split; [reflexivity |]. split; reflexivity.
Qed.

Lemma overcurrent_listed_twice_witness :
  ∃ res, diagnose (mkReading 230 35 50 0.95 230 230 230 90) = Ok res
    ∧ all_faults res = ["Overcurrent"; "Overcurrent"]
    ∧ occurrences "Overcurrent" (all_faults res) = 2%nat
    ∧ severity res = "High".
Proof.
  destruct (proj1 overcurrent_listed_twice
              (mkReading 230 35 50 0.95 230 230 230 90))
    as (res & Hres & Hocc & _ & Hsev); [reflexivity | reflexivity |].
  exists res. split; [exact Hres |].
  assert (Hall : all_faults res = ["Overcurrent"; "Overcurrent"]).
  { injection Hres as <-. reflexivity. }
  split; [exact Hall |]. split; [exact Hocc |].
  rewrite Hsev, Hall. reflexivity.
Defined.

(** ** The power utilities *)

(** Inside the domain the square does not overflow. *)
Lemma pow2_in_domain x :
  (x * x <=? 1)%float = true → PyFloat.pow2 x = Ok (x * x)%float.
Proof.
  intros Hle. unfold PyFloat.pow2.
  destruct (is_infinity (x * x)) eqn:Hinf; [| reflexivity].
  exfalso. apply is_infinity_spec in Hinf as [s Hs].
  destruct s; [now apply square_not_neg_infinity in Hs |].
  rewrite leb_spec, Hs, Prim2SF_one in Hle. discriminate Hle.
Qed.

Lemma reactive_power_in_domain (v c pf : float) :
  (pf * pf <=? 1)%float = true →
  Power.calculate_reactive_power v c pf
  = Ok (v * c * PrimFloat.sqrt (1 - pf * pf))%float.
Proof.
  intros Hle. unfold Power.calculate_reactive_power.
  rewrite (pow2_in_domain pf Hle). cbn [mbind result_bind].
  unfold PyFloat.math_sqrt. now rewrite (sub_one_nonneg _ Hle).
Qed.

Lemma reactive_power_out_of_domain (v c pf : float) :
  (1 <? pf * pf)%float = true →
  Power.calculate_reactive_power v c pf
  = Raise (if is_infinity (pf * pf) && negb (is_infinity pf)
           then OverflowError else ValueError).
Proof.
  intros Hgt. unfold Power.calculate_reactive_power, PyFloat.pow2.
  destruct (is_infinity (pf * pf) && negb (is_infinity pf)); [reflexivity |].
  cbn [mbind result_bind]. unfold PyFloat.math_sqrt.
  now rewrite (sub_one_neg _ Hgt).
Qed.




(** ** The input stage of the handler *)

Ltac feature_key :=
  unfold App.feature_keys; rewrite !elem_of_cons; auto 10.

Lemma get_present data key v default :
  data !! key = Some v → App.get data key default = v.
Proof. intros H. unfold App.get. now rewrite H. Qed.

(** A key whose value, when present, converts: the default converts too, so
    the conversion succeeds, with the default's value when the key is
    missing. *)
Lemma float_get_default float_of_str data key (d : App.json)
    (x : App.pyfloat) :
  App.float float_of_str d = Ok x →
  (∀ v, data !! key = Some v → ∃ q, App.float float_of_str v = Ok q) →
  ∃ q, App.float float_of_str (App.get data key d) = Ok q
    ∧ (data !! key = None → q = x).
Proof.
  intros Hd Hpresent. unfold App.get.
  destruct (data !! key) as [v |] eqn:Hkey.
  - destruct (Hpresent v eq_refl) as [q Hq]. exists q.
    split; [exact Hq | discriminate].
  - exists x. split; [exact Hd | reflexivity].
Qed.

Lemma extract_raises float_of_str data k v e :
  k ∈ App.feature_keys → data !! k = Some v →
  App.float float_of_str v = Raise e →
  ∃ e', App.extract float_of_str data = Raise e'.
Proof.
  intros Hk Hget Hfloat. unfold App.extract.
  destruct (App.float float_of_str (App.get data "voltage" _)) eqn:E1;
    simpl; [| eauto].
  destruct (App.float float_of_str (App.get data "current" _)) eqn:E2;
    simpl; [| eauto].
  destruct (App.float float_of_str (App.get data "temperature" _)) eqn:E3;
    simpl; [| eauto].
  destruct (App.float float_of_str (App.get data "vibration" _)) eqn:E4;
    simpl; [| eauto].
  destruct (App.float float_of_str (App.get data "power_factor" _)) eqn:E5;
    simpl; [| eauto].
  exfalso. unfold App.feature_keys in Hk.
  rewrite !elem_of_cons, elem_of_nil in Hk.
  destruct Hk as [-> | [-> | [-> | [-> | [-> | []]]]]];
    rewrite (get_present _ _ _ _ Hget) in *; congruence.
Qed.

(** [float()] on a Python [int]: only [OverflowError], and only from 2^53
    on. *)
Lemma float_of_int_raises n e :
  App.float_of_int n = Raise e →
  e = OverflowError ∧ (9007199254740992 ≤ Z.abs n)%Z.
Proof.
  unfold App.float_of_int.
  destruct (Z.log2 (Z.abs n) - 52 <=? 0)%Z eqn:Hk; [discriminate |].
  apply Z.leb_gt in Hk.
  destruct (2 ^ 1024 <=? _)%Z; [| discriminate].
  intros [= <-]. split; [reflexivity |].
  assert (Hpos : (0 < Z.abs n)%Z).
  { destruct (Z.abs n) eqn:Ha; [simpl in Hk | |]; lia. }
  pose proof (proj1 (Z.log2_spec _ Hpos)) as Hlog.
  apply Z.le_trans with (2 ^ Z.log2 (Z.abs n))%Z; [| exact Hlog].
  change 9007199254740992%Z with (2 ^ 53)%Z.
  apply Z.pow_le_mono_r; lia.
Qed.

(** An integer of magnitude 2^1024 or more is beyond the doubles. *)
Lemma float_of_int_overflow n :
  (2 ^ 1024 ≤ Z.abs n)%Z → App.float_of_int n = Raise OverflowError.
Proof.
  intros Hbig. unfold App.float_of_int.
  set (a := Z.abs n) in *.
  assert (Hpos : (0 < a)%Z).
  { apply Z.lt_le_trans with (2 ^ 1024)%Z; [| exact Hbig].
    now apply Z.pow_pos_nonneg. }
  assert (Hlog : (1024 ≤ Z.log2 a)%Z).
  { rewrite <- (Z.log2_pow2 1024) by lia. now apply Z.log2_le_mono. }
  set (k := (Z.log2 a - 52)%Z) in *.
  assert (Hk : (972 ≤ k)%Z) by (unfold k; lia).
  destruct (k <=? 0)%Z eqn:Hk0; [apply Z.leb_le in Hk0; lia |].
  assert (H2k : (0 < 2 ^ k)%Z) by (apply Z.pow_pos_nonneg; lia).
  assert (Hq : (2 ^ 52 ≤ a / 2 ^ k)%Z).
  { apply Z.div_le_lower_bound; [exact H2k |].
    rewrite <- Z.pow_add_r by lia.
    replace (k + 52)%Z with (Z.log2 a) by (unfold k; lia).
    apply Z.log2_spec, Hpos. }
  match goal with
  | |- context [(?q * 2 ^ k)%Z] => assert (Hq' : (2 ^ 52 ≤ q)%Z)
  end.
  { destruct (_ <? _)%Z; [exact Hq |].
    destruct (_ <? _)%Z; [lia |]. destruct (Z.even _); lia. }
  match goal with
  | |- context [(2 ^ 1024 <=? ?v)%Z] => assert (Hv : (2 ^ 1024 ≤ v)%Z)
  end.
  { apply Z.le_trans with (2 ^ 52 * 2 ^ k)%Z.
    - rewrite <- Z.pow_add_r by lia. apply Z.pow_le_mono_r; lia.
    - apply Z.mul_le_mono_nonneg_r; [lia | exact Hq']. }
  apply Z.leb_le in Hv. now rewrite Hv.
Qed.

(** What [float()] rejects. *)
Lemma float_raises float_of_str v e :
  App.float float_of_str v = Raise e →
  ((v = App.JNull ∨ (∃ items, v = App.JArray items)
    ∨ (∃ fields, v = App.JObject fields)) ∧ e = TypeError)
  ∨ (∃ s, v = App.JString s ∧ float_of_str s = None ∧ e = ValueError)
  ∨ (∃ n, v = App.JInt n ∧ (9007199254740992 ≤ Z.abs n)%Z
       ∧ e = OverflowError).
Proof.
  destruct v as [| b | n | x | s | items | fields]; cbn [App.float];
    try discriminate.
  - intros [= <-]. left. auto.
  - intros H. apply float_of_int_raises in H as [-> Hn]. right; right. eauto.
  - destruct (float_of_str s) eqn:Hs; [discriminate |].
    intros [= <-]. right; left. eauto.
  - intros [= <-]. left. eauto 6.
  - intros [= <-]. left. eauto 6.
Qed.




(** * Further properties of the rule engine *)

(** ** Phase imbalance *)

Lemma imbalance_iff va vb vc :
  imbalance va vb vc = Some PHASE_IMBALANCE ↔ unbalanced va vb vc.
Proof.
  unfold imbalance, unbalanced, deviates, PHASE_IMBALANCE_MAX. cbv zeta.
  destruct (PyFloat.eq (average va vb vc) 0) eqn:Hnz.
  - split; [discriminate | intros [H _]; discriminate H].
  - rewrite (gt_largest_deviation va vb vc Hnz).
    destruct (PyFloat.gt (deviation va _) 5),
      (PyFloat.gt (deviation vb _) 5), (PyFloat.gt (deviation vc _) 5);
      cbn; split; try discriminate; auto;
      intros [_ [H | [H | H]]]; discriminate H.
Qed.

(** X1: in double arithmetic, the imbalance check reports
    [PHASE_IMBALANCE] exactly when the average it computes is not zero and
    the deviation it computes for some phase is above 5 percent, and reports
    nothing otherwise.  That Python's [max] keeps a NaN in first place does
    not matter: the three deviations are NaN together or not at all. *)
Theorem phase_imbalance_iff va vb vc :
  (_check_phase_imbalance va vb vc = Ok (Some PHASE_IMBALANCE)
   ↔ unbalanced va vb vc)
  ∧ (_check_phase_imbalance va vb vc = Ok None ↔ ¬ unbalanced va vb vc).
Proof.
  rewrite check_phase_imbalance_returns, <- imbalance_iff.
  destruct (imbalance_cases va vb vc) as [-> | ->].
  - split; split; try discriminate; try tauto; intros H; now contradict H.
  - split; split; try discriminate; try tauto; intros H; now contradict H.
Qed.

(** X2: the imbalance check does not depend on the sign convention:
    negating the three phase voltages does not change its result, whatever
    they are.  (For other factors this fails on doubles: 235.6, 248.0 and
    260.4 are reported, ten times these values are not.) *)
Theorem phase_imbalance_sign va vb vc :
  _check_phase_imbalance (- va) (- vb) (- vc)
  = _check_phase_imbalance va vb vc
  ∧ _check_phase_imbalance 235.6 248.0 260.4 = Ok (Some PHASE_IMBALANCE)
  ∧ _check_phase_imbalance 2356 2480 2604 = Ok None.
Proof.
  split; [| split; reflexivity].
  rewrite !check_phase_imbalance_returns. f_equal. unfold imbalance.
  pose proof (average_opp va vb vc) as Havg.
  assert (Hzero : PyFloat.eq (average (- va) (- vb) (- vc)) 0
                  = PyFloat.eq (average va vb vc) 0).
  { unfold PyFloat.eq. rewrite !eqb_spec, Prim2SF_zero.
    rewrite (eqb_zero_unsigned_zero _ _ Havg). apply eqb_zero_opp. }
  rewrite Hzero.
  destruct (PyFloat.eq (average va vb vc) 0) eqn:Hnz; [reflexivity |].
  assert (Heq : average (- va) (- vb) (- vc) = (- average va vb vc)%float).
  { apply Prim2SF_inj. rewrite opp_spec.
    apply unsigned_zero_inj; [exact Havg |].
    unfold PyFloat.eq in Hzero. rewrite eqb_spec, Prim2SF_zero in Hzero.
    exact Hzero. }
  now rewrite Heq, !deviation_opp.
Qed.

(** X3: the imbalance check does not depend on which of the first two
    phases is which, but it does depend on which phase comes third: the sum
    is taken from left to right and is rounded after each addition, so
    1e16, 1 and -1e16 add up to zero and are not reported, while 1e16,
    -1e16 and 1 are. *)
Theorem phase_imbalance_swap va vb vc :
  _check_phase_imbalance vb va vc = _check_phase_imbalance va vb vc
  ∧ _check_phase_imbalance 1e16 1 (-1e16) = Ok None
  ∧ _check_phase_imbalance 1e16 (-1e16) 1 = Ok (Some PHASE_IMBALANCE).
Proof.
  split; [| split; reflexivity].
  rewrite !check_phase_imbalance_returns. f_equal.
  assert (Hiff : unbalanced vb va vc ↔ unbalanced va vb vc).
  { unfold unbalanced, average. rewrite (add_comm vb va). tauto. }
  rewrite <- !imbalance_iff in Hiff.
  destruct (imbalance_cases va vb vc) as [H | H],
    (imbalance_cases vb va vc) as [H' | H']; rewrite H, H' in *;
    try reflexivity.
  - symmetry. now apply Hiff.
  - now apply Hiff.
Qed.

(** ** Which faults are listed *)

Lemma check_current_cases c :
  _check_current c = None ∨ _check_current c = Some OVERCURRENT.
Proof. unfold _check_current. destruct (Py.gt c _); auto. Qed.

Lemma check_temperature_cases t :
  _check_temperature t = None ∨ _check_temperature t = Some OVERCURRENT.
Proof. unfold _check_temperature. destruct (Py.gt t _); auto. Qed.

(** Split a conjunction into its parts, and nothing else. *)
Ltac conjs := repeat match goal with |- _ ∧ _ => split end.

(** Case analysis on what the six checks return for [r]. *)
Ltac by_checks r :=
  unfold triggered, checks;
  destruct (check_voltage_cases (voltage r)) as [-> | [-> | ->]],
    (check_current_cases (current r)) as [-> | ->],
    (check_frequency_cases (frequency r)) as [-> | ->],
    (check_power_factor_cases (power_factor r)) as [-> | ->],
    (imbalance_cases (phase_a r) (phase_b r) (phase_c r)) as [-> | ->],
    (check_temperature_cases (temperature r)) as [-> | ->].

Lemma check_voltage_iff v f :
  _check_voltage v = Some f
  ↔ (f = OVERVOLTAGE ∧ 250 < v) ∨ (f = UNDERVOLTAGE ∧ v < 200).
Proof.
  unfold _check_voltage.
  destruct (Py.gt v VOLTAGE_MAX) eqn:Hmax.
  - apply gt_true in Hmax. split.
    + intros [= <-]. auto.
    + intros [[-> _] | [_ Hlow]]; [reflexivity |].
      exfalso. unfold VOLTAGE_MAX in Hmax. Lqa.lra.
  - apply gt_false in Hmax. destruct (Py.lt v VOLTAGE_MIN) eqn:Hmin.
    + apply lt_true in Hmin. split.
      * intros [= <-]. auto.
      * intros [[_ Hhigh] | [-> _]]; [| reflexivity].
        exfalso. unfold VOLTAGE_MAX in Hmax. Lqa.lra.
    + apply lt_false in Hmin. unfold VOLTAGE_MAX in Hmax.
      unfold VOLTAGE_MIN in Hmin. split; [discriminate |].
      intros [[_ H] | [_ H]]; exfalso; Lqa.lra.
Qed.

Lemma check_current_iff c f :
  _check_current c = Some f ↔ f = OVERCURRENT ∧ 30 < c.
Proof.
  unfold _check_current. destruct (Py.gt c CURRENT_MAX) eqn:H.
  - apply gt_true in H. split; [intros [= <-]; auto | now intros [-> _]].
  - apply gt_false in H. unfold CURRENT_MAX in H.
    split; [discriminate |]. intros [_ H']. exfalso. Lqa.lra.
Qed.

Lemma check_frequency_iff x f :
  _check_frequency x = Some f
  ↔ f = HARMONIC_DISTORTION ∧ (x < 48 ∨ 52 < x).
Proof.
  unfold _check_frequency.
  destruct (Py.lt x FREQUENCY_MIN) eqn:Hmin, (Py.gt x FREQUENCY_MAX) eqn:Hmax;
    simpl; rewrite ?lt_true, ?lt_false, ?gt_true, ?gt_false in *;
    unfold FREQUENCY_MIN, FREQUENCY_MAX in *.
  - split; [intros [= <-]; auto | now intros [-> _]].
  - split; [intros [= <-]; auto | now intros [-> _]].
  - split; [intros [= <-]; auto | now intros [-> _]].
  - split; [discriminate |]. intros [_ [H | H]]; exfalso; Lqa.lra.
Qed.

Lemma check_power_factor_iff pf f :
  _check_power_factor pf = Some f ↔ f = POWER_FACTOR_LOW ∧ pf < 0.85.
Proof.
  unfold _check_power_factor. destruct (Py.lt pf POWER_FACTOR_MIN) eqn:H.
  - apply lt_true in H. split; [intros [= <-]; auto | now intros [-> _]].
  - apply lt_false in H. unfold POWER_FACTOR_MIN in H.
    split; [discriminate |]. intros [_ H']. exfalso. Lqa.lra.
Qed.

Lemma check_temperature_iff t f :
  _check_temperature t = Some f ↔ f = OVERCURRENT ∧ 80 < t.
Proof.
  unfold _check_temperature. destruct (Py.gt t TEMPERATURE_MAX) eqn:H.
  - apply gt_true in H. split; [intros [= <-]; auto | now intros [-> _]].
  - apply gt_false in H. unfold TEMPERATURE_MAX in H.
    split; [discriminate |]. intros [_ H']. exfalso. Lqa.lra.
Qed.

Lemma imbalance_some_iff va vb vc f :
  imbalance va vb vc = Some f ↔ f = PHASE_IMBALANCE ∧ unbalanced va vb vc.
Proof.
  rewrite <- imbalance_iff.
  destruct (imbalance_cases va vb vc) as [-> | ->].
  - split; [discriminate | now intros [_ ?]].
  - split; [intros [= <-]; auto | now intros [-> _]].
Qed.

Global Instance value_inj : Inj (=) (=) value.
Proof. intros [] [] H; first [reflexivity | discriminate H]. Qed.

Lemma triggered_iff r f :
  f ∈ triggered r
  ↔ (f = OVERVOLTAGE ∧ 250 < voltage r)
    ∨ (f = UNDERVOLTAGE ∧ voltage r < 200)
    ∨ (f = OVERCURRENT ∧ (30 < current r ∨ 80 < temperature r))
    ∨ (f = HARMONIC_DISTORTION ∧ (frequency r < 48 ∨ 52 < frequency r))
    ∨ (f = POWER_FACTOR_LOW ∧ power_factor r < 0.85)
    ∨ (f = PHASE_IMBALANCE
       ∧ unbalanced (phase_a r) (phase_b r) (phase_c r)).
Proof.
  unfold triggered. rewrite list_elem_of_omap.
  split.
  - intros (o & Hin & ->). unfold checks in Hin.
    rewrite !elem_of_cons, elem_of_nil in Hin.
    destruct Hin as [H | [H | [H | [H | [H | [H | []]]]]]]; symmetry in H.
    + apply check_voltage_iff in H. tauto.
    + apply check_current_iff in H. tauto.
    + apply check_frequency_iff in H. tauto.
    + apply check_power_factor_iff in H. tauto.
    + apply imbalance_some_iff in H. tauto.
    + apply check_temperature_iff in H. tauto.
  - intros H. exists (Some f). split; [| reflexivity].
    unfold checks. rewrite !elem_of_cons.
    destruct H as [H | [H | [[-> [H | H]] | [H | [H | H]]]]].
    + left. symmetry. apply check_voltage_iff. tauto.
    + left. symmetry. apply check_voltage_iff. tauto.
    + right; left. symmetry. apply check_current_iff. tauto.
    + do 5 right; left. symmetry. apply check_temperature_iff. tauto.
    + do 2 right; left. symmetry. apply check_frequency_iff. tauto.
    + do 3 right; left. symmetry. apply check_power_factor_iff. tauto.
    + do 4 right; left. symmetry. apply imbalance_some_iff. tauto.
Qed.

(** X4: a fault is listed exactly when its limit is violated: Overvoltage
    above 250, Undervoltage below 200, Overcurrent for a current above 30
    or a temperature above 80, Harmonic Distortion for a frequency outside
    [48, 52], Low Power Factor below 0.85, and Phase Imbalance when, in
    double arithmetic, the average the engine computes for the phases is
    not zero and the deviation it computes for one of them is above 5
    percent. *)
Theorem fault_listed_iff r :
  ∃ res, diagnose r = Ok res
    ∧ ("Overvoltage" ∈ all_faults res ↔ 250 < voltage r)
    ∧ ("Undervoltage" ∈ all_faults res ↔ voltage r < 200)
    ∧ ("Overcurrent" ∈ all_faults res
       ↔ 30 < current r ∨ 80 < temperature r)
    ∧ ("Harmonic Distortion" ∈ all_faults res
       ↔ frequency r < 48 ∨ 52 < frequency r)
    ∧ ("Low Power Factor" ∈ all_faults res ↔ power_factor r < 0.85)
    ∧ ("Phase Imbalance" ∈ all_faults res
       ↔ unbalanced (phase_a r) (phase_b r) (phase_c r)).
Proof.
  destruct (diagnose_returns r) as (res & Hres & Hfaults & _).
  exists res. split; [exact Hres |]. rewrite Hfaults.
  change (map value (triggered r)) with (value <$> triggered r).
  repeat match goal with |- _ ∧ _ => split end.
  all: split;
    [ intros H; apply list_elem_of_fmap in H as (f & Hf & Hin);
      apply triggered_iff in Hin;
      destruct f; try discriminate Hf; intuition discriminate
    | intros H ].
  - apply (list_elem_of_fmap_2 value _ OVERVOLTAGE), triggered_iff. tauto.
  - apply (list_elem_of_fmap_2 value _ UNDERVOLTAGE), triggered_iff. tauto.
  - apply (list_elem_of_fmap_2 value _ OVERCURRENT), triggered_iff. tauto.
  - apply (list_elem_of_fmap_2 value _ HARMONIC_DISTORTION), triggered_iff.
    tauto.
  - apply (list_elem_of_fmap_2 value _ POWER_FACTOR_LOW), triggered_iff. tauto.
  - apply (list_elem_of_fmap_2 value _ PHASE_IMBALANCE), triggered_iff. tauto.
Qed.

Ltac sublist_steps :=
  repeat first [apply sublist_nil | apply sublist_skip | apply sublist_cons].

(** X5: whatever the reading, [all_faults] is a sub-sequence of the six
    names in check order, with one voltage name at most; it has at most six
    entries, and the names Short Circuit, Open Circuit, Ground Fault and No
    Fault never occur in it. *)
Theorem faults_are_sublist r :
  ∃ res, diagnose r = Ok res
    ∧ (∃ vname, (vname = "Overvoltage" ∨ vname = "Undervoltage")
         ∧ all_faults res `sublist_of`
             [vname; "Overcurrent"; "Harmonic Distortion";
              "Low Power Factor"; "Phase Imbalance"; "Overcurrent"])
    ∧ (length (all_faults res) ≤ 6)%nat
    ∧ Forall (λ name, name ∉ all_faults res)
        ["Short Circuit"; "Open Circuit"; "Ground Fault"; "No Fault"].
Proof.
  destruct (diagnose_returns r) as (res & Hres & Hfaults & _).
  exists res. split; [exact Hres |]. rewrite Hfaults.
  by_checks r; simpl;
    (split;
     [ first [ exists "Overvoltage"; split; [now left |]; solve [sublist_steps]
             | exists "Undervoltage"; split; [now right |];
               solve [sublist_steps] ]
     | split; [lia |];
       refine (bool_decide_unpack _ _); vm_compute; exact I ]).
Qed.

(** ** Details, severity and action *)

(** X6: [details] has one line per entry of [all_faults], in the same
    order, and the line beside an entry is the one of the very check that
    produced the entry: pairing the two lists gives, check by check in
    source order, the fault name of each check that fired with that check's
    own line, which interpolates the reading's value the check looked at
    (the voltage, the current, the frequency, the power factor, the three
    phases, the temperature).  The lines are recorded by the f-string they
    come from and the values interpolated; their rendering as text, with
    the rounding of [:.2f] and [:.1f], is not part of the statement. *)
Theorem details_match_faults r :
  ∃ res imb,
    diagnose r = Ok res
    ∧ _check_phase_imbalance (phase_a r) (phase_b r) (phase_c r) = Ok imb
    ∧ length (details res) = length (all_faults res)
    ∧ zip (all_faults res) (details res) = fired (check_lines r imb).
Proof.
  assert (H : ∃ res, diagnose r = Ok res
              ∧ length (details res) = length (all_faults res)
              ∧ zip (all_faults res) (details res)
                = fired (check_lines r (imbalance (phase_a r) (phase_b r)
                                          (phase_c r)))).
  { unfold diagnose, fired, check_lines.
    rewrite check_phase_imbalance_returns.
    by_checks r; cbn; eexists; (split; [reflexivity |]); split; reflexivity. }
  destruct H as (res & Hres & Hlen & Hzip).
  exists res, (imbalance (phase_a r) (phase_b r) (phase_c r)).
  auto using check_phase_imbalance_returns.
Qed.

(** X7: the severity is ["Critical"] exactly when [all_faults] has three or
    more entries: the two ["Critical"] rows of the severity table are never
    reached. *)
Theorem critical_iff_three_entries r :
  ∃ res, diagnose r = Ok res
    ∧ (severity res = "Critical" ↔ (3 ≤ length (all_faults res))%nat).
Proof.
  destruct (diagnose_returns r) as (res & Hres & Hfaults & _ & Hsev & _).
  exists res. split; [exact Hres |]. rewrite Hsev, Hfaults.
  by_checks r; split; intros H;
    first [reflexivity | discriminate H | (simpl in *; lia)].
Qed.

(** X8: the four ways a result says that nothing is wrong agree: an empty
    [all_faults], the primary fault ["No Fault"], the severity ["None"],
    the action "System operating normally." and an empty [details]. *)
Theorem no_fault_equivalences r :
  ∃ res, diagnose r = Ok res
    ∧ (all_faults res = [] ↔ primary_fault res = "No Fault")
    ∧ (all_faults res = [] ↔ severity res = "None")
    ∧ (all_faults res = [] ↔ action res = "System operating normally.")
    ∧ (all_faults res = [] ↔ details res = []).
Proof.
  unfold diagnose. rewrite check_phase_imbalance_returns.
  by_checks r; simpl; eexists; (split; [reflexivity |]); simpl;
    repeat match goal with |- _ ∧ _ => split end;
    split; intros H; first [reflexivity | discriminate H].
Qed.

(** X9: the severity follows the first listed fault that the table knows,
    not the worst one: with voltage at most 250, current at most 30 and a
    power factor below 0.85 the severity is ["Low"] as long as fewer than
    three checks fire, also when a temperature above 80 adds an Overcurrent
    entry, which on its own is rated ["High"]. *)
Theorem low_power_factor_masks r :
  voltage r <= 250 → current r <= 30 → power_factor r < 0.85 →
  ∃ res, diagnose r = Ok res
    ∧ ((length (all_faults res) < 3)%nat → severity res = "Low").
Proof.
  intros Hv Hc Hpf.
  destruct (diagnose_returns r) as (res & Hres & Hfaults & _ & Hsev & _).
  exists res. split; [exact Hres |]. rewrite Hsev, Hfaults.
  assert (Hpf' : _check_power_factor (power_factor r) = Some POWER_FACTOR_LOW).
  { apply check_power_factor_iff. auto. }
  assert (Hc' : _check_current (current r) = None).
  { destruct (check_current_cases (current r)) as [H | H]; [exact H |].
    apply check_current_iff in H as [_ H]. exfalso. Lqa.lra. }
  assert (Hv' : _check_voltage (voltage r) ≠ Some OVERVOLTAGE).
  { intros H. apply check_voltage_iff in H as [[_ H] | [H _]];
      [exfalso; Lqa.lra | discriminate H]. }
  unfold triggered, checks. rewrite Hpf', Hc'.
  destruct (check_voltage_cases (voltage r)) as [-> | [H | ->]];
    [| contradiction |];
    destruct (check_frequency_cases (frequency r)) as [-> | ->],
      (imbalance_cases (phase_a r) (phase_b r) (phase_c r)) as [-> | ->],
      (check_temperature_cases (temperature r)) as [-> | ->];
    intros Hlen; first [reflexivity | (simpl in Hlen; lia)].
Qed.

Lemma low_power_factor_masks_witness :
  ∃ res, diagnose (mkReading 230 15 50 0.8 230 230 230 90) = Ok res
    ∧ all_faults res = ["Low Power Factor"; "Overcurrent"]
    ∧ severity res = "Low".
Proof.
  destruct (low_power_factor_masks (mkReading 230 15 50 0.8 230 230 230 90))
    as (res & Hres & Hlow); [discriminate | discriminate | reflexivity |].
  exists res. split; [exact Hres |].
  assert (Hall : all_faults res = ["Low Power Factor"; "Overcurrent"]).
  { injection Hres as <-. reflexivity. }
  split; [exact Hall |]. apply Hlow. rewrite Hall. simpl. lia.
Defined.

(** ** Confidence and faults together *)

Lemma triggered_nil_bounds r :
  triggered r = [] →
  200 <= voltage r <= 250 ∧ current r <= 30 ∧ 0.85 <= power_factor r.
Proof.
  intros Hnil.
  assert (Hno : ∀ f, ¬ f ∈ triggered r).
  { intros f. rewrite Hnil. apply not_elem_of_nil. }
  pose proof (Hno OVERVOLTAGE) as H1. pose proof (Hno UNDERVOLTAGE) as H2.
  pose proof (Hno OVERCURRENT) as H3. pose proof (Hno POWER_FACTOR_LOW) as H4.
  rewrite triggered_iff in H1, H2, H3, H4.
  repeat split; apply Qnot_lt_le; intros H; tauto.
Qed.

(** X10: a diagnosis without faults always has confidence 100: every
    deduction is tied to a limit whose check must have fired. *)
Theorem no_fault_full_confidence r :
  ∃ res, diagnose r = Ok res
    ∧ (all_faults res = [] → confidence res = 100).
Proof.
  destruct (diagnose_returns r) as (res & Hres & Hfaults & _ & _ & Hconf & _).
  exists res. split; [exact Hres |]. intros Hempty.
  rewrite Hfaults in Hempty. apply map_eq_nil in Hempty.
  destruct (triggered_nil_bounds r Hempty) as ([Hv1 Hv2] & Hc & Hpf).
  rewrite Hconf. unfold _calculate_confidence, confidence_before_clamp.
  rewrite (proj2 (gt_false (voltage r) (VOLTAGE_MAX * 1.5)))
    by (unfold VOLTAGE_MAX; Lqa.lra).
  rewrite (proj2 (lt_false (voltage r) (VOLTAGE_MIN * 0.5)))
    by (unfold VOLTAGE_MIN; Lqa.lra).
  rewrite (proj2 (gt_false (current r) (CURRENT_MAX * 1.5)))
    by (unfold CURRENT_MAX; Lqa.lra).
  rewrite (proj2 (lt_false (power_factor r) 0.7)) by Lqa.lra.
  reflexivity.
Qed.

Lemma no_fault_full_confidence_witness :
  ∃ res, diagnose create_sample_reading = Ok res ∧ confidence res = 100.
Proof.
  destruct (no_fault_full_confidence create_sample_reading)
    as (res & Hres & Hfull).
  exists res. split; [exact Hres |]. apply Hfull.
  vm_compute in Hres. injection Hres as <-. reflexivity.
Defined.

(** X11: the lowest confidence, 65, is only given together with the
    severity ["Critical"]: the three deductions need a voltage, a current
    and a power factor that each make their own check fire. *)
Theorem lowest_confidence_is_critical r :
  ∃ res, diagnose r = Ok res
    ∧ (confidence res == 65 →
       severity res = "Critical" ∧ (3 ≤ length (all_faults res))%nat).
Proof.
  destruct (diagnose_returns r)
    as (res & Hres & Hfaults & _ & Hsev & Hconf & _).
  exists res. split; [exact Hres |].
  rewrite Hconf, clamp_inactive, Hsev, Hfaults.
  unfold confidence_before_clamp.
  destruct (Py.gt (voltage r) (VOLTAGE_MAX * 1.5)
            || Py.lt (voltage r) (VOLTAGE_MIN * 0.5)) eqn:Hv;
    [| destruct (Py.gt (current r) _), (Py.lt (power_factor r) 0.7);
       intros H; discriminate H].
  destruct (Py.gt (current r) (CURRENT_MAX * 1.5)) eqn:Hc;
    [| destruct (Py.lt (power_factor r) 0.7); intros H; discriminate H].
  destruct (Py.lt (power_factor r) 0.7) eqn:Hpf;
    [| intros H; discriminate H].
  intros _.
  apply gt_true in Hc. apply lt_true in Hpf.
  assert (Hc' : _check_current (current r) = Some OVERCURRENT).
  { apply check_current_iff. split; [reflexivity |].
    unfold CURRENT_MAX in Hc. Lqa.lra. }
  assert (Hpf' : _check_power_factor (power_factor r) = Some POWER_FACTOR_LOW).
  { apply check_power_factor_iff. split; [reflexivity | Lqa.lra]. }
  assert (Hv' : _check_voltage (voltage r) ≠ None).
  { apply orb_true_iff in Hv as [Hv | Hv].
    - apply gt_true in Hv. unfold VOLTAGE_MAX in Hv.
      rewrite (proj2 (check_voltage_iff (voltage r) OVERVOLTAGE));
        [discriminate |]. left. split; [reflexivity | Lqa.lra].
    - apply lt_true in Hv. unfold VOLTAGE_MIN in Hv.
      rewrite (proj2 (check_voltage_iff (voltage r) UNDERVOLTAGE));
        [discriminate |]. right. split; [reflexivity | Lqa.lra]. }
  unfold triggered, checks. rewrite Hc', Hpf'.
  destruct (check_voltage_cases (voltage r)) as [H | [-> | ->]];
    [contradiction | |];
    destruct (check_frequency_cases (frequency r)) as [-> | ->],
      (imbalance_cases (phase_a r) (phase_b r) (phase_c r)) as [-> | ->],
      (check_temperature_cases (temperature r)) as [-> | ->];
    (split; [reflexivity | simpl; lia]).
Qed.

Lemma lowest_confidence_is_critical_witness :
  ∃ res, diagnose (mkReading 400 50 50 0.5 230 230 230 40) = Ok res
    ∧ confidence res = 65 ∧ severity res = "Critical".
Proof.
  destruct (lowest_confidence_is_critical
              (mkReading 400 50 50 0.5 230 230 230 40))
    as (res & Hres & Hcrit).
  exists res. split; [exact Hres |].
  assert (Hconf : confidence res = 65).
  { injection Hres as <-. reflexivity. }
  split; [exact Hconf |]. apply Hcrit. now rewrite Hconf.
Defined.

(** ** The recommended action *)

Global Instance recommend_action_inj : Inj (=) (=) _recommend_action.
Proof. intros [] [] H; first [reflexivity | discriminate H]. Qed.

(** X12: the recommended action identifies the primary fault: two
    diagnoses recommend the same action exactly when they name the same
    primary fault. *)
Theorem action_identifies_primary r r' :
  ∃ res res', diagnose r = Ok res ∧ diagnose r' = Ok res'
    ∧ (action res = action res' ↔ primary_fault res = primary_fault res').
Proof.
  destruct (diagnose_returns r) as (res & Hres & _ & Hprim & _ & _ & Hact).
  destruct (diagnose_returns r')
    as (res' & Hres' & _ & Hprim' & _ & _ & Hact').
  exists res, res'. split; [exact Hres |]. split; [exact Hres' |].
  rewrite Hact, Hact', Hprim, Hprim'. split; intros H.
  - apply (inj _recommend_action) in H. now rewrite H.
  - apply (inj value) in H. now rewrite H.
Qed.

(** ** Which fault is primary *)

Lemma check_voltage_none v :
  _check_voltage v = None → 200 <= v ∧ v <= 250.
Proof.
  intros H. split; apply Qnot_lt_le; intros Hlt.
  - rewrite (proj2 (check_voltage_iff v UNDERVOLTAGE)) in H by tauto.
    discriminate H.
  - rewrite (proj2 (check_voltage_iff v OVERVOLTAGE)) in H by tauto.
    discriminate H.
Qed.

Lemma check_current_none c : _check_current c = None → c <= 30.
Proof.
  intros H. apply Qnot_lt_le. intros Hlt.
  rewrite (proj2 (check_current_iff c OVERCURRENT)) in H by tauto.
  discriminate H.
Qed.

(** X13: the voltage check comes first, so a voltage fault always takes the
    primary slot: the primary fault is Overvoltage exactly when the voltage
    is above 250 and Undervoltage exactly when it is below 200.  With the
    voltage in its band a current above 30 makes Overcurrent primary; and
    when Overcurrent is primary although the current is within its limit,
    it comes from the temperature check and is the only fault listed. *)
Theorem primary_fault_priority r :
  ∃ res, diagnose r = Ok res
    ∧ (primary_fault res = "Overvoltage" ↔ 250 < voltage r)
    ∧ (primary_fault res = "Undervoltage" ↔ voltage r < 200)
    ∧ (200 <= voltage r <= 250 → 30 < current r →
       primary_fault res = "Overcurrent")
    ∧ (primary_fault res = "Overcurrent" → current r <= 30 →
       all_faults res = ["Overcurrent"] ∧ 80 < temperature r).
Proof.
  destruct (diagnose_returns r) as (res & Hres & Hfaults & Hprim & _).
  exists res. split; [exact Hres |]. rewrite Hprim, Hfaults.
  unfold triggered, checks.
  destruct (check_voltage_cases (voltage r)) as [E1 | [E1 | E1]]; rewrite E1.
  - apply check_voltage_none in E1 as [Hlo Hhi].
    destruct (check_current_cases (current r)) as [E2 | E2]; rewrite E2.
    + apply check_current_none in E2.
      destruct (check_frequency_cases (frequency r)) as [-> | ->],
        (check_power_factor_cases (power_factor r)) as [-> | ->],
        (imbalance_cases (phase_a r) (phase_b r) (phase_c r)) as [-> | ->],
        (check_temperature_cases (temperature r)) as [E6 | E6]; rewrite E6;
        simpl; conjs;
        try (split; [discriminate | intros; exfalso; Lqa.lra]);
        try (intros; exfalso; Lqa.lra);
        try (intros H; discriminate H).
      intros _ _. split; [reflexivity |].
      now apply check_temperature_iff in E6 as [_ E6].
    + apply check_current_iff in E2 as [_ E2].
      destruct (check_frequency_cases (frequency r)) as [-> | ->],
        (check_power_factor_cases (power_factor r)) as [-> | ->],
        (imbalance_cases (phase_a r) (phase_b r) (phase_c r)) as [-> | ->],
        (check_temperature_cases (temperature r)) as [-> | ->];
        simpl; conjs;
        try (split; [discriminate | intros; exfalso; Lqa.lra]);
        try reflexivity;
        intros; exfalso; Lqa.lra.
  - apply check_voltage_iff in E1 as [[_ E1] | [E1 _]]; [| discriminate E1].
    destruct (check_current_cases (current r)) as [-> | ->],
      (check_frequency_cases (frequency r)) as [-> | ->],
      (check_power_factor_cases (power_factor r)) as [-> | ->],
      (imbalance_cases (phase_a r) (phase_b r) (phase_c r)) as [-> | ->],
      (check_temperature_cases (temperature r)) as [-> | ->];
      simpl; conjs;
      try (split; [discriminate | intros; exfalso; Lqa.lra]);
      try (split; [intros; assumption | reflexivity]);
      try (intros H; discriminate H);
      intros; exfalso; Lqa.lra.
  - apply check_voltage_iff in E1 as [[E1 _] | [_ E1]]; [discriminate E1 |].
    destruct (check_current_cases (current r)) as [-> | ->],
      (check_frequency_cases (frequency r)) as [-> | ->],
      (check_power_factor_cases (power_factor r)) as [-> | ->],
      (imbalance_cases (phase_a r) (phase_b r) (phase_c r)) as [-> | ->],
      (check_temperature_cases (temperature r)) as [-> | ->];
      simpl; conjs;
      try (split; [discriminate | intros; exfalso; Lqa.lra]);
      try (split; [intros; assumption | reflexivity]);
      try (intros H; discriminate H);
      intros; exfalso; Lqa.lra.
Qed.

Lemma primary_fault_priority_witness :
  ∃ res, diagnose (mkReading 230 15 50 0.95 230 230 230 90) = Ok res
    ∧ all_faults res = ["Overcurrent"].
Proof.
  destruct (primary_fault_priority (mkReading 230 15 50 0.95 230 230 230 90))
    as (res & Hres & _ & _ & _ & Honly).
  exists res. split; [exact Hres |]. apply Honly.
  - injection Hres as <-. reflexivity.
  - discriminate.
Defined.

(** ** The power utilities at unity power factor *)

(** X14: at a power factor of 1 the power triangle is flat, on doubles too:
    real power is apparent power, bit for bit, and reactive power is zero
    when the product of voltage and current is finite; when that product
    overflowed or is NaN, reactive power is NaN. *)
Theorem unity_power_factor (v c : float) :
  Power.calculate_power v c 1 = Power.calculate_apparent_power v c
  ∧ ∃ q, Power.calculate_reactive_power v c 1 = Ok q
      ∧ (is_finite (Power.calculate_apparent_power v c) = true →
         (q =? 0)%float = true)
      ∧ (is_finite (Power.calculate_apparent_power v c) = false → q = nan).
Proof.
  split; [apply mul_one |].
  exists (v * c * 0)%float. split; [reflexivity |].
  apply mul_zero.
Qed.

Lemma unity_power_factor_witness :
  Power.calculate_reactive_power 230 10 1 = Ok 0%float
  ∧ Power.calculate_reactive_power 1e200 1e200 1 = Ok nan.
Proof.
  destruct (unity_power_factor 230 10) as (_ & q & Hq & Hzero & _).
  destruct (unity_power_factor 1e200 1e200) as (_ & q' & Hq' & _ & Hnan).
  split.
  - rewrite Hq. f_equal. vm_compute in Hq. now injection Hq as <-.
  - rewrite Hq', (Hnan eq_refl). reflexivity.
Defined.

(** * Further properties of the handler *)

Lemma extract_conversions float_of_str data :
  match first_error (conversions float_of_str data) with
  | Some e => App.extract float_of_str data = Raise e
  | None =>
      ∃ x, App.extract float_of_str data
           = Ok (App.get data "device_id" (App.JString "Unknown"), x)
  end.
Proof.
  unfold conversions, feature_defaults, App.extract. simpl.
  destruct (App.float float_of_str (App.get data "voltage" _)); simpl;
    [| reflexivity].
  destruct (App.float float_of_str (App.get data "current" _)); simpl;
    [| reflexivity].
  destruct (App.float float_of_str (App.get data "temperature" _)); simpl;
    [| reflexivity].
  destruct (App.float float_of_str (App.get data "vibration" _)); simpl;
    [| reflexivity].
  destruct (App.float float_of_str (App.get data "power_factor" _)); simpl;
    [| reflexivity].
  eauto.
Qed.

(** X16: the five readings are converted in the order voltage, current,
    temperature, vibration, power_factor, and the handler answers 400 with
    the exception of the first conversion that raises ([TypeError],
    [ValueError], or [OverflowError] for an integer beyond the doubles),
    whatever the later readings are and whatever the model stage would do;
    when none raises the model stage is reached. *)
Theorem first_rejected_reading_decides
    (float_of_str : string → option App.pyfloat) (Body : Type)
    (data : gmap string App.json) :
  (∀ e, first_error (conversions float_of_str data) = Some e →
     ∀ predict_and_report : App.json → App.features → result Body,
       App.diagnose float_of_str predict_and_report data = App.Json400 e)
  ∧ (first_error (conversions float_of_str data) = None →
     ∃ x, ∀ predict_and_report : App.json → App.features → result Body,
       App.diagnose float_of_str predict_and_report data
       = match predict_and_report
                 (App.get data "device_id" (App.JString "Unknown")) x with
         | Ok body => App.Json200 body
         | Raise e => App.Json400 e
         end).
Proof.
  pose proof (extract_conversions float_of_str data) as H.
  split.
  - intros e He predict_and_report. rewrite He in H.
    unfold App.diagnose. now rewrite H.
  - intros Hnone. rewrite Hnone in H. destruct H as [x Hx].
    exists x. intros predict_and_report. unfold App.diagnose. now rewrite Hx.
Qed.

Lemma first_rejected_reading_decides_witness :
  App.diagnose App.float_of_sample (λ _ x, Ok x)
    (<["voltage" := App.JInt (10 ^ 400)]>
       (<["current" := App.JString "high"]>
          (<["temperature" := App.JNull]> ∅)))
  = App.Json400 OverflowError
  ∧ App.diagnose App.float_of_sample (λ _ x, Ok x)
      (<["current" := App.JString "high"]>
         (<["temperature" := App.JNull]> ∅))
    = App.Json400 ValueError
  ∧ ∃ x, App.diagnose App.float_of_sample (λ _ x, Ok x)
           (<["voltage" := App.JInt 9007199254740993]> ∅)
         = App.Json200 x.
Proof.
  split; [| split].
  - apply (proj1 (first_rejected_reading_decides App.float_of_sample
                    App.features
                    (<["voltage" := App.JInt (10 ^ 400)]>
                       (<["current" := App.JString "high"]>
                          (<["temperature" := App.JNull]> ∅))))).
    reflexivity.
  - apply (proj1 (first_rejected_reading_decides App.float_of_sample
                    App.features
                    (<["current" := App.JString "high"]>
                       (<["temperature" := App.JNull]> ∅)))).
    reflexivity.
  - destruct (proj2 (first_rejected_reading_decides App.float_of_sample
                       App.features
                       (<["voltage" := App.JInt 9007199254740993]> ∅)))
      as [x Hx]; [reflexivity |].
    exists x. apply (Hx (λ _ x, Ok x)).
Defined.

Lemma get_insert_other data k v key default :
  k ≠ key → App.get (<[k := v]> data) key default = App.get data key default.
Proof. intros Hne. unfold App.get. now rewrite lookup_insert_ne. Qed.

(** X17: the handler reads six keys and nothing else: adding or replacing
    any other key of the request (for instance the frequency or the phase
    voltages the rule engine works on) does not change the response. *)
Theorem other_keys_ignored
    (float_of_str : string → option App.pyfloat) (Body : Type)
    (predict_and_report : App.json → App.features → result Body)
    (data : gmap string App.json) (k : string) (v : App.json) :
  k ∉ "device_id" :: App.feature_keys →
  App.diagnose float_of_str predict_and_report (<[k := v]> data)
  = App.diagnose float_of_str predict_and_report data.
Proof.
  intros Hk. unfold App.feature_keys in Hk.
  rewrite !not_elem_of_cons in Hk.
  destruct Hk as (H0 & H1 & H2 & H3 & H4 & H5 & _).
  unfold App.diagnose, App.extract.
  now rewrite !get_insert_other by assumption.
Qed.

Lemma other_keys_ignored_witness :
  App.diagnose App.float_of_sample (λ _ x, Ok x)
    (<["frequency" := App.JString "fifty"]> ∅)
  = App.Json200
      (App.mkFeatures (App.Finite 230) (App.Finite 50) (App.Finite 60)
         (App.Finite 5) (App.Finite 0.9)).
Proof.
  rewrite (other_keys_ignored App.float_of_sample App.features (λ _ x, Ok x)
             ∅ "frequency" (App.JString "fifty")).
  - reflexivity.
  - refine (bool_decide_unpack _ _). vm_compute. exact I.
Defined.

(** The conversion of an integer that [float()] accepts: the integer
    itself below 2^53 in magnitude, and never an integer of magnitude 2^1024
    or more. *)
Lemma float_of_int_returns n y :
  App.float_of_int n = Ok y →
  (Z.abs n < 2 ^ 1024)%Z
  ∧ ((Z.abs n < 9007199254740992)%Z → y = App.Finite (inject_Z n)).
Proof.
  intros Hy. split.
  - destruct (Z.lt_ge_cases (Z.abs n) (2 ^ 1024)) as [Hlt | Hge];
      [exact Hlt |].
    rewrite (float_of_int_overflow n Hge) in Hy. discriminate Hy.
  - intros Hsmall. unfold App.float_of_int in Hy.
    destruct (Z.log2 (Z.abs n) - 52 <=? 0)%Z eqn:Hk; [congruence |].
    exfalso. apply Z.leb_gt in Hk.
    assert (Hpos : (0 < Z.abs n)%Z).
    { destruct (Z.abs n) eqn:Ha; [simpl in Hk | |]; lia. }
    assert (Hlog : (Z.log2 (Z.abs n) < 53)%Z).
    { apply Z.log2_lt_pow2; [exact Hpos |].
      change (2 ^ 53)%Z with 9007199254740992%Z. exact Hsmall. }
    lia.
Qed.

(** X18: when the extraction succeeds, the reading stored for a key that is
    present in the request is the conversion of the value under that key: a
    JSON float as it is, [true] and [false] as 1 and 0, and a JSON integer
    as the integer itself when its magnitude is below 2^53; an integer from
    2^53 on is rounded to 53 significant bits (2^53 + 1 is stored as 2^53),
    and an integer of magnitude 2^1024 or more is never stored, the
    extraction fails on it. *)
Theorem extracted_readings
    (float_of_str : string → option App.pyfloat)
    (data : gmap string App.json) (device : App.json) (x : App.features)
    (k : string) (v : App.json) :
  App.extract float_of_str data = Ok (device, x) →
  k ∈ App.feature_keys → data !! k = Some v →
  ∃ y, feature_field k x = Some y
    ∧ App.float float_of_str v = Ok y
    ∧ (∀ z, v = App.JFloat z → y = z)
    ∧ (∀ b : bool, v = App.JBool b → y = App.Finite (if b then 1 else 0))
    ∧ (∀ n, v = App.JInt n →
         (Z.abs n < 2 ^ 1024)%Z
         ∧ ((Z.abs n < 9007199254740992)%Z → y = App.Finite (inject_Z n))
         ∧ (n = 9007199254740993%Z → y = App.Finite 9007199254740992)).
Proof.
  intros Hex Hk Hget.
  assert (Hfloat : ∃ y, feature_field k x = Some y
                     ∧ App.float float_of_str v = Ok y).
  { unfold App.extract in Hex.
    destruct (App.float float_of_str (App.get data "voltage" _)) eqn:E1;
      simpl in Hex; [| discriminate].
    destruct (App.float float_of_str (App.get data "current" _)) eqn:E2;
      simpl in Hex; [| discriminate].
    destruct (App.float float_of_str (App.get data "temperature" _)) eqn:E3;
      simpl in Hex; [| discriminate].
    destruct (App.float float_of_str (App.get data "vibration" _)) eqn:E4;
      simpl in Hex; [| discriminate].
    destruct (App.float float_of_str (App.get data "power_factor" _)) eqn:E5;
      simpl in Hex; [| discriminate].
    injection Hex as _ <-.
    unfold App.feature_keys in Hk. rewrite !elem_of_cons, elem_of_nil in Hk.
    destruct Hk as [-> | [-> | [-> | [-> | [-> | []]]]]];
      rewrite (get_present _ _ _ _ Hget) in *;
      eexists; (split; [reflexivity | assumption]). }
  destruct Hfloat as (y & Hy & Hfloat). exists y.
  split; [exact Hy |]. split; [exact Hfloat |]. split; [| split].
  - intros z ->. simpl in Hfloat. congruence.
  - intros b ->. simpl in Hfloat. congruence.
  - intros n ->. cbn [App.float] in Hfloat.
    destruct (float_of_int_returns n y Hfloat) as [Hrange Hexact].
    split; [exact Hrange |]. split; [exact Hexact |].
    intros ->. vm_compute in Hfloat. congruence.
Qed.

Lemma extracted_readings_witness :
  ∃ y, feature_field "voltage"
         (App.mkFeatures (App.Finite 9007199254740992) (App.Finite 50)
            (App.Finite 60) (App.Finite 5) (App.Finite 0.9))
       = Some y
    ∧ y = App.Finite 9007199254740992.
Proof.
  destruct (extracted_readings App.float_of_sample
              (<["voltage" := App.JInt 9007199254740993]> ∅)
              (App.JString "Unknown")
              (App.mkFeatures (App.Finite 9007199254740992) (App.Finite 50)
                 (App.Finite 60) (App.Finite 5) (App.Finite 0.9))
              "voltage" (App.JInt 9007199254740993))
    as (y & Hy & _ & _ & _ & Hint).
  - reflexivity.
  - unfold App.feature_keys. rewrite elem_of_cons. now left.
  - reflexivity.
  - exists y. split; [exact Hy |].
    exact (proj2 (proj2 (Hint _ eq_refl)) eq_refl).
Defined.

(** X19: a predicted class has a fault name and a recommendation exactly
    when it is 0, 1, 2 or 3; for any other class the lookup fails. *)
Theorem labels_defined_iff (prediction : Z) :
  is_Some (labels prediction) ↔ (0 ≤ prediction ≤ 3)%Z.
Proof.
  unfold labels, FAULT_TYPES, RECOMMENDATIONS.
  destruct (decide (prediction = 0%Z)) as [-> | H0];
    [split; [lia | now eexists] |].
  destruct (decide (prediction = 1%Z)) as [-> | H1];
    [split; [lia | now eexists] |].
  destruct (decide (prediction = 2%Z)) as [-> | H2];
    [split; [lia | now eexists] |].
  destruct (decide (prediction = 3%Z)) as [-> | H3];
    [split; [lia | now eexists] |].
  rewrite !lookup_insert_ne, lookup_empty by congruence. simpl.
  split; [intros [? ?]; discriminate | lia].
Qed.

(** * Properties of the account routes *)

Lemma find_by_email_cons u db e :
  Accounts.find_by_email (u :: db) e
  = if bool_decide (Accounts.email u = e) then Some u
    else Accounts.find_by_email db e.
Proof.
  unfold Accounts.find_by_email. rewrite filter_cons.
  destruct (decide (Accounts.email u = e)) as [He | He].
  - now rewrite bool_decide_eq_true_2.
  - now rewrite bool_decide_eq_false_2.
Qed.

Lemma find_by_email_Some db e u :
  Accounts.find_by_email db e = Some u → u ∈ db ∧ Accounts.email u = e.
Proof.
  induction db as [| u' db IH]; [discriminate |].
  rewrite find_by_email_cons. case_bool_decide as He.
  - intros [= <-]. split; [apply list_elem_of_here | exact He].
  - intros H. destruct (IH H) as [Hin Hu].
    split; [now apply list_elem_of_further | exact Hu].
Qed.

Lemma find_by_email_None db e :
  Accounts.find_by_email db e = None ↔ e ∉ (Accounts.email <$> db).
Proof.
  induction db as [| u db IH]; simpl.
  - split; [intros _; apply not_elem_of_nil | reflexivity].
  - rewrite find_by_email_cons, not_elem_of_cons. case_bool_decide as He.
    + split; [discriminate | intros [Hne _]; congruence].
    + rewrite IH. split; [intros H; split; [congruence | exact H] | tauto].
Qed.

Lemma find_by_email_app db u e :
  Accounts.find_by_email db e = None →
  Accounts.find_by_email (db ++ [u]) e
  = if bool_decide (Accounts.email u = e) then Some u else None.
Proof.
  induction db as [| u' db IH]; simpl.
  - intros _. now rewrite find_by_email_cons.
  - rewrite !find_by_email_cons.
    destruct (bool_decide (Accounts.email u' = e)); [discriminate | exact IH].
Qed.

Lemma find_by_email_fmap (f : Accounts.user → Accounts.user) db e :
  (∀ u, Accounts.email (f u) = Accounts.email u) →
  Accounts.find_by_email (f <$> db) e = f <$> Accounts.find_by_email db e.
Proof.
  intros Hf. induction db as [| u db IH]; [reflexivity |].
  rewrite fmap_cons, !find_by_email_cons, Hf.
  case_bool_decide; [reflexivity | exact IH].
Qed.

Lemma next_id_above db u :
  u ∈ db → (Accounts.user_id u < Accounts.next_id db)%Z.
Proof.
  unfold Accounts.next_id. induction db as [| u' db IH].
  - intros H. now apply elem_of_nil in H.
  - rewrite elem_of_cons, fmap_cons. cbn [foldr].
    intros [-> | Hin]; [lia |]. specialize (IH Hin). lia.
Qed.

Lemma next_id_fresh db :
  Accounts.next_id db ∉ (Accounts.user_id <$> db).
Proof.
  intros Hin. apply list_elem_of_fmap in Hin as (u & Hid & Hu).
  apply next_id_above in Hu. lia.
Qed.

Lemma set_activated_keeps uid db :
  Accounts.user_id <$> Accounts.set_activated uid db = Accounts.user_id <$> db
  ∧ Accounts.email <$> Accounts.set_activated uid db = Accounts.email <$> db
  ∧ Accounts.password_hash <$> Accounts.set_activated uid db
    = Accounts.password_hash <$> db.
Proof.
  unfold Accounts.set_activated.
  induction db as [| u db (IH1 & IH2 & IH3)]; [auto |].
  rewrite !fmap_cons, IH1, IH2, IH3. now case_bool_decide.
Qed.

Lemma set_password_hash_keeps h uid db :
  Accounts.user_id <$> Accounts.set_password_hash h uid db
  = Accounts.user_id <$> db
  ∧ Accounts.email <$> Accounts.set_password_hash h uid db
    = Accounts.email <$> db
  ∧ Accounts.is_activated <$> Accounts.set_password_hash h uid db
    = Accounts.is_activated <$> db.
Proof.
  unfold Accounts.set_password_hash.
  induction db as [| u db (IH1 & IH2 & IH3)]; [auto |].
  rewrite !fmap_cons, IH1, IH2, IH3. now case_bool_decide.
Qed.

Lemma set_activated_unknown uid db :
  uid ∉ (Accounts.user_id <$> db) → Accounts.set_activated uid db = db.
Proof.
  unfold Accounts.set_activated. induction db as [| u db IH]; [reflexivity |].
  rewrite !fmap_cons, not_elem_of_cons. intros [Hne Hnot].
  rewrite IH by exact Hnot. now rewrite bool_decide_eq_false_2 by congruence.
Qed.

Lemma set_password_hash_unknown h uid db :
  uid ∉ (Accounts.user_id <$> db) → Accounts.set_password_hash h uid db = db.
Proof.
  unfold Accounts.set_password_hash.
  induction db as [| u db IH]; [reflexivity |].
  rewrite !fmap_cons, not_elem_of_cons. intros [Hne Hnot].
  rewrite IH by exact Hnot. now rewrite bool_decide_eq_false_2 by congruence.
Qed.

Lemma set_activated_twice uid db :
  Accounts.set_activated uid (Accounts.set_activated uid db)
  = Accounts.set_activated uid db.
Proof.
  unfold Accounts.set_activated. induction db as [| u db IH]; [reflexivity |].
  rewrite !fmap_cons, IH. f_equal.
  destruct (decide (Accounts.user_id u = uid)) as [Hu | Hu].
  - rewrite (bool_decide_eq_true_2 _ Hu). simpl.
    now rewrite (bool_decide_eq_true_2 _ Hu).
  - rewrite (bool_decide_eq_false_2 _ Hu).
    now rewrite (bool_decide_eq_false_2 _ Hu).
Qed.

Section RoutesFacts.

Variable strip : string → string.
Variable generate_password_hash : string → string.
Variable check_password_hash : string → string → bool.
Variable dumps : string → Z → string.
Variable loads : string → string → option Z.
Variable url_for : string → string → string.
Variable mail_delivers : string → bool.

Local Abbreviation register :=
  (Accounts.register strip generate_password_hash dumps url_for mail_delivers).
Local Abbreviation login := (Accounts.login strip check_password_hash).
Local Abbreviation activate_account := (Accounts.activate_account loads).
Local Abbreviation reset_password :=
  (Accounts.reset_password generate_password_hash loads).
Local Abbreviation forgot_password := (Accounts.forgot_password strip dumps url_for).

Lemma register_accepted data db :
  acceptable strip data db →
  ∃ body,
    register Accounts.POST data db
    = (Accounts.Json 201 body,
       db ++ [new_row strip generate_password_hash data db],
       Some (strip (Accounts.field data "email"),
             url_for "activate_account"
               (dumps "email-confirm-salt" (Accounts.next_id db))))
    ∧ ("activation_url",
       App.JString (url_for "activate_account"
                      (dumps "email-confirm-salt" (Accounts.next_id db))))
      ∈ body.
Proof.
  intros (He & Hu & Hp & Hc & Hlen & Hnew).
  unfold Accounts.register.
  rewrite !bool_decide_eq_false_2 by assumption. simpl.
  rewrite (bool_decide_eq_true_2 _ Hc). simpl.
  rewrite (proj2 (Nat.ltb_ge _ _) Hlen).
  apply find_by_email_None in Hnew. rewrite Hnew.
  rewrite (find_by_email_app _ _ _ Hnew). simpl.
  rewrite bool_decide_eq_true_2 by reflexivity. simpl.
  unfold Accounts.send_activation_email.
  eexists. split; [reflexivity |].
  destruct (mail_delivers _); simpl;
    apply list_elem_of_further, list_elem_of_here.
Qed.

Lemma register_rejected data db :
  ¬ acceptable strip data db →
  ∃ message,
    register Accounts.POST data db
    = (Accounts.message_reply 400 "error" message, db, None).
Proof.
  intros Hnot. unfold Accounts.register.
  destruct (bool_decide (strip (Accounts.field data "email") = "")) eqn:He;
    [eauto |].
  destruct (bool_decide (strip (Accounts.field data "username") = "")) eqn:Hu;
    [eauto |].
  destruct (bool_decide (Accounts.field data "password" = "")) eqn:Hp;
    [eauto |].
  simpl.
  destruct (bool_decide (Accounts.field data "password"
                         = Accounts.field data "password_confirm")) eqn:Hc;
    [| eauto].
  simpl.
  destruct (String.length (Accounts.field data "password") <? 6)%nat eqn:Hlen;
    [eauto |].
  destruct (Accounts.find_by_email db _) eqn:Hfind; [eauto |].
  exfalso. apply Hnot.
  apply bool_decide_eq_false in He, Hu, Hp. apply bool_decide_eq_true in Hc.
  apply Nat.ltb_ge in Hlen. apply find_by_email_None in Hfind.
  repeat split; assumption.
Qed.

(** X20: a registration is accepted exactly when no field is empty, the
    confirmation matches, the password has six characters or more and the
    address is new.  An accepted one appends a single row, not activated,
    with an identifier above all others, answers 201 and puts the
    activation link for that row into the response itself, whether or not
    the mail went out; a rejected one answers 400, leaves the table as it
    was and sends nothing. *)
Theorem register_outcome data db :
  if decide (acceptable strip data db)
  then ∃ body,
         register Accounts.POST data db
         = (Accounts.Json 201 body,
            db ++ [new_row strip generate_password_hash data db],
            Some (strip (Accounts.field data "email"),
                  url_for "activate_account"
                    (dumps "email-confirm-salt" (Accounts.next_id db))))
         ∧ ("activation_url",
            App.JString (url_for "activate_account"
                           (dumps "email-confirm-salt" (Accounts.next_id db))))
           ∈ body
         ∧ Forall (λ u, (Accounts.user_id u < Accounts.next_id db)%Z) db
  else ∃ message,
         register Accounts.POST data db
         = (Accounts.message_reply 400 "error" message, db, None).
Proof.
  destruct (decide (acceptable strip data db)) as [Hyes | Hno].
  - destruct (register_accepted data db Hyes) as (body & Hreg & Hurl).
    exists body. split; [exact Hreg |]. split; [exact Hurl |].
    apply Forall_forall. intros u. apply next_id_above.
  - now apply register_rejected.
Qed.


(** X21: the two uniqueness constraints of the table, on identifiers and on
    addresses, are kept by every route that writes to it, so the insert of
    [register] never meets an address or an identifier that is taken. *)
Theorem tables_stay_unique m data db token :
  Accounts.unique db →
  Accounts.unique (register m data db).1.2
  ∧ Accounts.unique (activate_account token db).2
  ∧ Accounts.unique (reset_password token m data db).2.
Proof.
  intros [Hids Hemails]. split; [| split].
  - destruct m; [exact (conj Hids Hemails) |].
    destruct (decide (acceptable strip data db)) as [Hyes | Hno].
    + destruct (register_accepted data db Hyes) as (body & -> & _). simpl.
      destruct Hyes as (_ & _ & _ & _ & _ & Hnew).
      unfold Accounts.unique. rewrite !fmap_app. simpl. split.
      * apply NoDup_app. split; [exact Hids |].
        split; [| apply NoDup_singleton].
        intros x Hx Hin. apply list_elem_of_singleton in Hin. subst x.
        now apply next_id_fresh in Hx.
      * apply NoDup_app. split; [exact Hemails |].
        split; [| apply NoDup_singleton].
        intros x Hx Hin. apply list_elem_of_singleton in Hin. now subst x.
    + destruct (register_rejected data db Hno) as (message & ->).
      exact (conj Hids Hemails).
  - unfold Accounts.activate_account.
    destruct (loads _ token) as [uid |]; [| exact (conj Hids Hemails)].
    simpl. unfold Accounts.unique.
    destruct (set_activated_keeps uid db) as (-> & -> & _). now split.
  - unfold Accounts.reset_password.
    destruct (loads _ token) as [uid |]; [| exact (conj Hids Hemails)].
    destruct m; [exact (conj Hids Hemails) |].
    destruct (bool_decide _); [exact (conj Hids Hemails) |].
    destruct (_ <? _)%nat; [exact (conj Hids Hemails) |].
    simpl. unfold Accounts.unique.
    destruct (set_password_hash_keeps
                (generate_password_hash (Accounts.field data "password"))
                uid db) as (-> & -> & _).
    now split.
Qed.

(** X22: [login] hands a user to [login_user] only on a POST from a visitor
    who is not logged in, for a row of the table whose address is the
    stripped one of the request, whose hash accepts the password and that
    is activated; and only then does it answer 200. *)
Theorem login_sound m is_authenticated data db reply session :
  login m is_authenticated data db = (reply, session) →
  match session with
  | Some u =>
      m = Accounts.POST ∧ is_authenticated = false
      ∧ u ∈ db
      ∧ Accounts.email u = strip (Accounts.field data "email")
      ∧ check_password_hash (Accounts.password_hash u)
          (Accounts.field data "password") = true
      ∧ Accounts.is_activated u ≠ 0%Z
      ∧ reply = Accounts.Json 200
                  [("status", App.JString "success");
                   ("message", App.JString "Login successful");
                   ("redirect", App.JString "/")]
  | None => ∀ body, reply ≠ Accounts.Json 200 body
  end.
Proof.
  unfold Accounts.login.
  destruct is_authenticated; [intros [= <- <-]; discriminate |].
  destruct m; [intros [= <- <-]; discriminate |].
  destruct (_ || _); [intros [= <- <-]; discriminate |].
  destruct (Accounts.find_by_email db _) as [row |] eqn:Hfind;
    [| intros [= <- <-]; discriminate].
  apply find_by_email_Some in Hfind as [Hin Hemail].
  destruct (check_password_hash _ _) eqn:Hcheck; simpl;
    [| intros [= <- <-]; discriminate].
  case_bool_decide as Hact; [intros [= <- <-]; discriminate |].
  intros [= <- <-]. repeat split; assumption.
Qed.

(** X23: from registration to the first session.  If the hash made of the
    password accepts that password and the activation token decodes to the
    identifier it was made from, then after an accepted registration the
    same credentials are refused with 403; activating with the token of the
    link in the registration response succeeds, and after it the same
    credentials open a session for the new row. *)
Theorem register_activate_login data db :
  check_password_hash
    (generate_password_hash (Accounts.field data "password"))
    (Accounts.field data "password") = true →
  loads "email-confirm-salt"
    (dumps "email-confirm-salt" (Accounts.next_id db))
  = Some (Accounts.next_id db) →
  acceptable strip data db →
  ∃ body db1 token db2 u,
    register Accounts.POST data db
    = (Accounts.Json 201 body, db1,
       Some (strip (Accounts.field data "email"),
             url_for "activate_account" token))
    ∧ login Accounts.POST false data db1
      = (Accounts.message_reply 403 "error"
           "Please activate your account using the link sent to your email",
         None)
    ∧ activate_account token db1
      = (Accounts.Page "activation_success.html", db2)
    ∧ login Accounts.POST false data db2
      = (Accounts.Json 200
           [("status", App.JString "success");
            ("message", App.JString "Login successful");
            ("redirect", App.JString "/")],
         Some u)
    ∧ Accounts.user_id u = Accounts.next_id db
    ∧ Accounts.email u = strip (Accounts.field data "email").
Proof.
  intros Hcheck Hloads Hyes.
  destruct (register_accepted data db Hyes) as (body & Hreg & _).
  destruct Hyes as (He & _ & Hp & _ & _ & Hnew).
  apply find_by_email_None in Hnew.
  set (row := new_row strip generate_password_hash data db) in *.
  assert (Hfind : Accounts.find_by_email (db ++ [row])
                    (strip (Accounts.field data "email")) = Some row).
  { rewrite (find_by_email_app _ _ _ Hnew). simpl.
    now rewrite bool_decide_eq_true_2. }
  exists body, (db ++ [row]),
    (dumps "email-confirm-salt" (Accounts.next_id db)),
    (Accounts.set_activated (Accounts.next_id db) (db ++ [row])),
    (Accounts.mkUser (Accounts.user_id row) (Accounts.email row)
       (Accounts.username row) (Accounts.password_hash row) 1).
  split; [exact Hreg |]. split; [| split; [| split]].
  - unfold Accounts.login.
    rewrite !bool_decide_eq_false_2 by assumption. simpl.
    rewrite Hfind. simpl. unfold row. simpl. now rewrite Hcheck.
  - unfold Accounts.activate_account. now rewrite Hloads.
  - unfold Accounts.login.
    rewrite !bool_decide_eq_false_2 by assumption. simpl.
    unfold Accounts.set_activated at 1.
    rewrite find_by_email_fmap by (intros u; now case_bool_decide).
    rewrite Hfind. simpl.
    rewrite bool_decide_eq_true_2 by reflexivity. simpl.
    now rewrite Hcheck.
  - split; reflexivity.
Qed.

Lemma find_by_email_unique db u :
  NoDup (Accounts.email <$> db) → u ∈ db →
  Accounts.find_by_email db (Accounts.email u) = Some u.
Proof.
  induction db as [| u' db IH]; [intros _ H; now apply elem_of_nil in H |].
  rewrite fmap_cons, NoDup_cons, elem_of_cons, find_by_email_cons.
  intros [Hfresh Hnodup] [-> | Hin].
  - now rewrite bool_decide_eq_true_2.
  - rewrite bool_decide_eq_false_2; [now apply IH |].
    intros Heq. apply Hfresh. rewrite Heq.
    now apply list_elem_of_fmap_2.
Qed.

(** X24: [reset_password] never touches identifiers, addresses or
    activation flags.  It changes the table only on a POST with a valid
    token and a password of six characters or more, and then exactly by
    giving the rows with the token's identifier the new hash; when no row
    has that identifier it still answers "Password reset successfully" and
    changes nothing. *)
Theorem reset_password_outcome token m data db :
  let reply := (reset_password token m data db).1 in
  let db' := (reset_password token m data db).2 in
  Accounts.user_id <$> db' = Accounts.user_id <$> db
  ∧ Accounts.email <$> db' = Accounts.email <$> db
  ∧ Accounts.is_activated <$> db' = Accounts.is_activated <$> db
  ∧ (db' ≠ db →
     m = Accounts.POST
     ∧ (6 ≤ String.length (Accounts.field data "password"))%nat
     ∧ ∃ uid, loads "password-reset-salt" token = Some uid
         ∧ uid ∈ (Accounts.user_id <$> db))
  ∧ (∀ uid,
       loads "password-reset-salt" token = Some uid →
       m = Accounts.POST →
       (6 ≤ String.length (Accounts.field data "password"))%nat →
       reply = Accounts.message_reply 200 "success"
                 "Password reset successfully"
       ∧ db' = Accounts.set_password_hash
                 (generate_password_hash (Accounts.field data "password"))
                 uid db).
Proof.
  cbv zeta. unfold Accounts.reset_password.
  destruct (loads "password-reset-salt" token) as [uid |];
    [| simpl; conjs; try reflexivity; [congruence | discriminate]].
  destruct m;
    [simpl; conjs; try reflexivity; [congruence | discriminate] |].
  destruct (bool_decide (Accounts.field data "password" = "")) eqn:Hempty.
  { apply bool_decide_eq_true in Hempty. rewrite Hempty. simpl.
    conjs; try reflexivity; [congruence |].
    intros uid' _ _ Hlen. simpl in Hlen. lia. }
  destruct (String.length (Accounts.field data "password") <? 6)%nat
    eqn:Hlen.
  { apply Nat.ltb_lt in Hlen. simpl.
    conjs; try reflexivity; [congruence | intros; lia]. }
  apply Nat.ltb_ge in Hlen. simpl.
  destruct (set_password_hash_keeps
              (generate_password_hash (Accounts.field data "password"))
              uid db) as (Hids & Hemails & Hflags).
  split; [exact Hids |]. split; [exact Hemails |]. split; [exact Hflags |].
  split.
  - intros Hchanged. split; [reflexivity |]. split; [exact Hlen |].
    exists uid. split; [reflexivity |].
    destruct (decide (uid ∈ Accounts.user_id <$> db)) as [Hin | Hnot];
      [exact Hin |].
    exfalso. apply Hchanged. now apply set_password_hash_unknown.
  - intros uid' [= <-] _ _. split; reflexivity.
Qed.

(** X25: after a successful reset the new password opens a session: for an
    activated row with a non-empty address in a table with unique
    addresses, a reset with a token for the row's identifier and a password
    of six characters or more, whose hash accepts it, is followed by a
    successful login with that address and that password. *)
Theorem reset_then_login token data data' db u :
  NoDup (Accounts.email <$> db) → u ∈ db →
  Accounts.email u ≠ "" → Accounts.is_activated u ≠ 0%Z →
  loads "password-reset-salt" token = Some (Accounts.user_id u) →
  (6 ≤ String.length (Accounts.field data "password"))%nat →
  check_password_hash
    (generate_password_hash (Accounts.field data "password"))
    (Accounts.field data "password") = true →
  strip (Accounts.field data' "email") = Accounts.email u →
  Accounts.field data' "password" = Accounts.field data "password" →
  ∃ db' u',
    reset_password token Accounts.POST data db
    = (Accounts.message_reply 200 "success" "Password reset successfully",
       db')
    ∧ login Accounts.POST false data' db'
      = (Accounts.Json 200
           [("status", App.JString "success");
            ("message", App.JString "Login successful");
            ("redirect", App.JString "/")],
         Some u')
    ∧ Accounts.user_id u' = Accounts.user_id u
    ∧ Accounts.password_hash u'
      = generate_password_hash (Accounts.field data "password").
Proof.
  intros Hnodup Hin Hemail Hact Hloads Hlen Hcheck Hlogin Hpw.
  set (pw := Accounts.field data "password") in *.
  assert (Hne : pw ≠ "").
  { intros Hz. rewrite Hz in Hlen. simpl in Hlen. lia. }
  set (u' := Accounts.mkUser (Accounts.user_id u) (Accounts.email u)
               (Accounts.username u) (generate_password_hash pw)
               (Accounts.is_activated u)).
  exists (Accounts.set_password_hash (generate_password_hash pw)
            (Accounts.user_id u) db), u'.
  split; [| split; [| split; reflexivity]].
  - unfold Accounts.reset_password. rewrite Hloads. fold pw.
    rewrite (bool_decide_eq_false_2 _ Hne).
    now rewrite (proj2 (Nat.ltb_ge _ _) Hlen).
  - unfold Accounts.login. rewrite Hlogin, Hpw.
    rewrite (bool_decide_eq_false_2 _ Hemail), (bool_decide_eq_false_2 _ Hne).
    simpl. unfold Accounts.set_password_hash.
    rewrite find_by_email_fmap by (intros x; now case_bool_decide).
    rewrite (find_by_email_unique db u Hnodup Hin). simpl.
    rewrite bool_decide_eq_true_2 by reflexivity. simpl.
    rewrite Hcheck. simpl.
    now rewrite (bool_decide_eq_false_2 _ Hact).
Qed.

(** X26: the answer of [forgot_password] tells whether the address is
    registered: for a non-empty stripped address both answers are 200 with
    status "success", but the message is "... check your inbox for a
    password reset link." exactly when the address is in the table, and
    "... a reset link has been sent" exactly when it is not; a reset mail,
    with a token for the identifier of the row, is only tried in the first
    case. *)
Theorem forgot_password_outcome data db :
  let e := strip (Accounts.field data "email") in
  e ≠ "" →
  (e ∈ (Accounts.email <$> db)
   ↔ (forgot_password Accounts.POST data db).1
     = Accounts.message_reply 200 "success"
         "If an account exists with this email, check your inbox for a password reset link.")
  ∧ (e ∉ (Accounts.email <$> db)
     ↔ (forgot_password Accounts.POST data db).1
       = Accounts.message_reply 200 "success"
           "If an account exists with this email, a reset link has been sent")
  ∧ match (forgot_password Accounts.POST data db).2 with
    | Some (recipient, link) =>
        recipient = e
        ∧ ∃ u, u ∈ db ∧ Accounts.email u = e
            ∧ link = url_for "reset_password"
                       (dumps "password-reset-salt" (Accounts.user_id u))
    | None => e ∉ (Accounts.email <$> db)
    end.
Proof.
  cbv zeta. intros He. unfold Accounts.forgot_password.
  rewrite (bool_decide_eq_false_2 _ He).
  destruct (Accounts.find_by_email db _) as [u |] eqn:Hfind; simpl.
  - assert (Hin : strip (Accounts.field data "email")
                  ∈ Accounts.email <$> db).
    { destruct (decide (strip (Accounts.field data "email")
                        ∈ Accounts.email <$> db)) as [H | H]; [exact H |].
      apply find_by_email_None in H. congruence. }
    apply find_by_email_Some in Hfind as [Hu Hemail].
    split; [tauto |]. split; [split; [tauto | discriminate] |].
    split; [reflexivity |]. now exists u.
  - apply find_by_email_None in Hfind.
    split; [split; [tauto | discriminate] |]. split; [tauto | exact Hfind].
Qed.

(** X27: activating is idempotent and touches nothing but the activation
    flag: a second visit of the same link changes nothing more, and
    identifiers, addresses and hashes stay as they are.  With a valid token
    the success page is shown and every row with the token's identifier is
    activated, also when there is no such row and the table stays as it
    was; with an invalid token the table stays as it was. *)
Theorem activate_account_outcome token db :
  let page := (activate_account token db).1 in
  let db' := (activate_account token db).2 in
  activate_account token db' = (page, db')
  ∧ Accounts.user_id <$> db' = Accounts.user_id <$> db
  ∧ Accounts.email <$> db' = Accounts.email <$> db
  ∧ Accounts.password_hash <$> db' = Accounts.password_hash <$> db
  ∧ match loads "email-confirm-salt" token with
    | Some uid =>
        page = Accounts.Page "activation_success.html"
        ∧ Forall (λ u, Accounts.user_id u = uid → Accounts.is_activated u = 1%Z)
            db'
        ∧ (uid ∉ (Accounts.user_id <$> db) → db' = db)
    | None => page = Accounts.Page "activation_failed.html" ∧ db' = db
    end.
Proof.
  cbv zeta. unfold Accounts.activate_account.
  destruct (loads "email-confirm-salt" token) as [uid |] eqn:Hloads; simpl.
  - rewrite set_activated_twice.
    destruct (set_activated_keeps uid db) as (Hids & Hemails & Hhashes).
    conjs; try assumption; try reflexivity.
    + unfold Accounts.set_activated. apply Forall_fmap, Forall_forall.
      intros u _. simpl. case_bool_decide; simpl; [reflexivity | tauto].
    + apply set_activated_unknown.
  - conjs; reflexivity.
Qed.

End RoutesFacts.

(** ** Worked examples for the account routes *)

Lemma tables_stay_unique_witness :
  length (Accounts.register (λ s, s) Accounts.sample_hash
            Accounts.sample_dumps Accounts.sample_url (λ _, false)
            Accounts.POST sample_new_form sample_users).1.2 = 3%nat
  ∧ Accounts.unique
      (Accounts.register (λ s, s) Accounts.sample_hash
         Accounts.sample_dumps Accounts.sample_url (λ _, false)
         Accounts.POST sample_new_form sample_users).1.2
  ∧ Accounts.unique
      (Accounts.activate_account Accounts.sample_loads "email-confirm-salt:1"
         sample_users).2.
Proof.
  destruct (tables_stay_unique (λ s, s) Accounts.sample_hash
              Accounts.sample_dumps Accounts.sample_loads Accounts.sample_url
              (λ _, false) Accounts.POST sample_new_form sample_users
              "email-confirm-salt:1")
    as (Hregister & Hactivate & _).
  - split; refine (bool_decide_unpack _ _); vm_compute; exact I.
  - split; [reflexivity |]. split; [exact Hregister | exact Hactivate].
Defined.

Lemma login_sound_witness :
  Accounts.mkUser 1 "ann@example.org" "ann" (Accounts.sample_hash "secret1") 1
  ∈ sample_users
  ∧ Accounts.sample_check (Accounts.sample_hash "secret1")
      (Accounts.field sample_form "password") = true.
Proof.
  pose proof (login_sound (λ s, s) Accounts.sample_check Accounts.POST false
                sample_form sample_users _
                (Some (Accounts.mkUser 1 "ann@example.org" "ann"
                         (Accounts.sample_hash "secret1") 1))
                eq_refl) as H.
  destruct H as (_ & _ & Hin & _ & Hcheck & _).
  split; [exact Hin | exact Hcheck].
Defined.

Lemma register_activate_login_witness :
  ∃ u, Accounts.user_id u = 1%Z ∧ Accounts.email u = "ann@example.org".
Proof.
  destruct (register_activate_login (λ s, s) Accounts.sample_hash
              Accounts.sample_check Accounts.sample_dumps
              Accounts.sample_loads Accounts.sample_url (λ _, true)
              sample_form [])
    as (body & db1 & token & db2 & u & _ & _ & _ & _ & Hid & Hemail).
  - reflexivity.
  - reflexivity.
  - refine (bool_decide_unpack _ _). vm_compute. exact I.
  - exists u. split; [exact Hid | exact Hemail].
Defined.

Lemma reset_then_login_witness :
  ∃ u', Accounts.user_id u' = 1%Z
    ∧ Accounts.password_hash u' = Accounts.sample_hash "newpass1".
Proof.
  destruct (reset_then_login (λ s, s) Accounts.sample_hash
              Accounts.sample_check Accounts.sample_loads
              "password-reset-salt:1"
              (<["password" := "newpass1"]> ∅)
              (<["email" := "ann@example.org"]>
                 (<["password" := "newpass1"]> ∅))
              sample_users
              (Accounts.mkUser 1 "ann@example.org" "ann"
                 (Accounts.sample_hash "secret1") 1))
    as (db' & u' & _ & _ & Hid & Hhash).
  - refine (bool_decide_unpack _ _). vm_compute. exact I.
  - apply list_elem_of_here.
  - discriminate.
  - discriminate.
  - reflexivity.
  - vm_compute. lia.
  - reflexivity.
  - reflexivity.
  - reflexivity.
  - exists u'. split; [exact Hid | exact Hhash].
Defined.

Lemma forgot_password_outcome_witness :
  (Accounts.forgot_password (λ s, s) Accounts.sample_dumps
     Accounts.sample_url Accounts.POST sample_form sample_users).1
  = Accounts.message_reply 200 "success"
      "If an account exists with this email, check your inbox for a password reset link.".
Proof.
  apply (forgot_password_outcome (λ s, s) Accounts.sample_dumps
           Accounts.sample_url sample_form sample_users).
  - discriminate.
  - refine (bool_decide_unpack _ _). vm_compute. exact I.
Defined.
